(** * The WebSocket connection manager of [app/websocket_manager.py]

    A shallow embedding of [ConnectionManager]: its four dictionaries, the
    lifecycle operations [connect], [disconnect], [join_room], [leave_room],
    the senders [send_personal_message], [broadcast], [broadcast_to_room]
    and [broadcast_to_user], and the diagnostic read [get_connections_info];
    and of what the endpoints of [app/routers/websocket.py] do with the
    manager when a client goes away.

    Conventions of the embedding.
    - A Python [dict] is a [gmap], a Python [set] a [gset]; client ids are
      strings, room and user ids are unbounded integers ([Z]).
    - Every method mutates [self]; here it takes the manager and returns the
      manager it leaves behind, paired with the value it returns.
    - [datetime.now()] and [uuid.uuid4()] are inputs of the operation that
      calls them.
    - [websocket.send_text] returns or raises; the manager handles
      [WebSocketDisconnect] and lets every other exception out of the method
      that made the call. The outcome per handle is an input of a sender.
    - The optional [db] session is the external persistence collaborator; the
      operations are embedded as they run with [db=None], and [connect] from
      the point where [websocket.accept()] has returned. Neither touches the
      four dictionaries. *)

From Stdlib Require Import ssreflect.
From stdpp Require Import gmap strings list fin_maps fin_sets.

Set Warnings "-clear-no-such-hyp".

Open Scope general_if_scope.
Open Scope string_scope.
Open Scope list_scope.
Open Scope Z_scope.

(** ** Data model *)

(** A transport handle: only its identity matters to the registry. *)
Inductive WebSocket : Type :=
  | Handle (n : nat).

#[global] Instance WebSocket_eq_dec : EqDecision WebSocket.
Proof. solve_decision. Defined.

Abbreviation datetime := Z (only parsing).

(** The metadata dictionary stored per connection (lines 37-42). *)
Record ConnInfo : Type := mkConnInfo {
  user_id : option Z;
  room_id : option Z;
  connected_at : datetime;
  last_active : datetime;
}.

#[global] Instance ConnInfo_eq_dec : EqDecision ConnInfo.
Proof. solve_decision. Defined.

(** The four dictionaries of [ConnectionManager.__init__] (lines 12-23). *)
Record ConnectionManager : Type := mkManager {
  active_connections : gmap string WebSocket;
  room_connections : gmap Z (gset string);
  user_connections : gmap Z (gset string);
  connection_info : gmap string ConnInfo;
}.

(** [ConnectionManager()] *)
Definition init : ConnectionManager :=
  mkManager ∅ ∅ ∅ ∅.

(** ** Python truthiness *)

(** [if room_id:] on an [Optional[int]]: [None] and [0] are falsy. *)
Definition truthy_int (o : option Z) : bool :=
  match o with
  | Some z => negb (z =? 0)
  | None => false
  end.

(** [if not client_id:] on an optional [str]: [None] and [""] are falsy. *)
Definition truthy_str (o : option string) : bool :=
  match o with
  | Some s => negb (String.eqb s "")
  | None => false
  end.

(** ** Index maintenance shared by the operations *)

(** [if k not in idx: idx[k] = set()] followed by [idx[k].add(c)]. *)
Definition index_add (k : Z) (c : string)
    (idx : gmap Z (gset string)) : gmap Z (gset string) :=
  let idx1 := match idx !! k with
              | None => <[k := ∅]> idx
              | Some _ => idx
              end in
  alter (λ s, s ∪ {[c]}) k idx1.

(** The cleanup block of [disconnect] (lines 85-89 and 92-96), entered when
    the id is truthy:
    [if k in idx: if c in idx[k]: idx[k].remove(c); if not idx[k]: idx.pop(k)]. *)
Definition index_discard (k : Z) (c : string)
    (idx : gmap Z (gset string)) : gmap Z (gset string) :=
  match idx !! k with
  | None => idx
  | Some s =>
      let idx1 := if bool_decide (c ∈ s)
                  then alter (λ s, s ∖ {[c]}) k idx
                  else idx in
      if bool_decide (default ∅ (idx1 !! k) = ∅)
      then delete k idx1
      else idx1
  end.

Definition set_room (r : option Z) (i : ConnInfo) : ConnInfo :=
  mkConnInfo (user_id i) r (connected_at i) (last_active i).

Definition set_last_active (t : datetime) (i : ConnInfo) : ConnInfo :=
  mkConnInfo (user_id i) (room_id i) (connected_at i) t.

(** ** Lifecycle operations *)

(** [connect] (lines 25-69). [uuid] is the value of [str(uuid.uuid4())],
    [t_conn] and [t_active] the two readings of [datetime.now()]. *)
Definition connect (m : ConnectionManager) (websocket : WebSocket)
    (client_id : option string) (uid rid : option Z)
    (uuid : string) (t_conn t_active : datetime)
    : ConnectionManager * string :=
  let cid := if truthy_str client_id then default uuid client_id else uuid in
  let active := <[cid := websocket]> (active_connections m) in
  let info := <[cid := mkConnInfo uid rid t_conn t_active]>
                (connection_info m) in
  let rooms := if truthy_int rid
               then index_add (default 0 rid) cid (room_connections m)
               else room_connections m in
  let users := if truthy_int uid
               then index_add (default 0 uid) cid (user_connections m)
               else user_connections m in
  (mkManager active rooms users info, cid).

(** [disconnect] (lines 71-107). The method returns [None] on both of its
    exits. *)
Definition disconnect (m : ConnectionManager) (client_id : string)
    : ConnectionManager :=
  match active_connections m !! client_id with
  | None => m
  | Some _ =>
      let metadata := connection_info m !! client_id in
      let uid := metadata ≫= user_id in
      let rid := metadata ≫= room_id in
      let active := delete client_id (active_connections m) in
      let info := delete client_id (connection_info m) in
      let rooms := if truthy_int rid
                   then index_discard (default 0 rid) client_id
                          (room_connections m)
                   else room_connections m in
      let users := if truthy_int uid
                   then index_discard (default 0 uid) client_id
                          (user_connections m)
                   else user_connections m in
      mkManager active rooms users info
  end.

(** [join_room] (lines 187-211). *)
Definition join_room (m : ConnectionManager) (client_id : string) (rid : Z)
    : ConnectionManager * bool :=
  match active_connections m !! client_id with
  | None => (m, false)
  | Some _ =>
      let rooms := index_add rid client_id (room_connections m) in
      let info := alter (set_room (Some rid)) client_id (connection_info m) in
      (mkManager (active_connections m) rooms (user_connections m) info, true)
  end.

(** [leave_room] (lines 213-240). *)
Definition leave_room (m : ConnectionManager) (client_id : string) (rid : Z)
    : ConnectionManager * bool :=
  match room_connections m !! rid with
  | None => (m, false)
  | Some s =>
      if bool_decide (client_id ∈ s) then
        let rooms1 := alter (λ s, s ∖ {[client_id]}) rid (room_connections m) in
        let rooms := if bool_decide (default ∅ (rooms1 !! rid) = ∅)
                     then delete rid rooms1
                     else rooms1 in
        let info := alter (set_room None) client_id (connection_info m) in
        (mkManager (active_connections m) rooms (user_connections m) info, true)
      else (m, false)
  end.

(** ** Dispatch *)

(** The exceptions a send can raise, as the manager tells them apart: the
    [WebSocketDisconnect] its loops catch, and any other one, such as the
    [RuntimeError] of a handle that is already closed. *)
Inductive Exception : Type :=
  | WebSocketDisconnect
  | OtherError.

#[global] Instance Exception_eq_dec : EqDecision Exception.
Proof. solve_decision. Defined.

(** What one call of [websocket.send_text] does. *)
Inductive SendOutcome : Type :=
  | Returns
  | Raises (e : Exception).

#[global] Instance SendOutcome_eq_dec : EqDecision SendOutcome.
Proof. solve_decision. Defined.

(** The state of the delivery loop of [broadcast_to_room] (lines 138-148):
    the metadata dictionary, whose [last_active] entries the loop updates,
    the recipients whose [send_text] returned, in delivery order, the local
    list [disconnected], and the exception that has left the loop, if one
    has. *)
Record Sweep : Type := mkSweep {
  sweep_info : gmap string ConnInfo;
  delivered : list string;
  disconnected : list string;
  escaped : option Exception;
}.

(** One iteration of the loop body (lines 140-148). [send ws] is what
    [ws.send_text] does; [now c] is the reading of [datetime.now()] after
    the send to [c]. [WebSocketDisconnect] is caught and the client noted;
    any other exception is not caught, and no later iteration runs. *)
Definition sweep_step (send : WebSocket → SendOutcome)
    (now : string → datetime) (active : gmap string WebSocket) (st : Sweep)
    (client_id : string) : Sweep :=
  match escaped st with
  | Some _ => st
  | None =>
      match active !! client_id with
      | None => st
      | Some websocket =>
          match send websocket with
          | Returns =>
              mkSweep (alter (set_last_active (now client_id)) client_id
                         (sweep_info st))
                      (delivered st ++ [client_id]) (disconnected st) None
          | Raises WebSocketDisconnect =>
              mkSweep (sweep_info st) (delivered st)
                      (disconnected st ++ [client_id]) None
          | Raises e =>
              mkSweep (sweep_info st) (delivered st) (disconnected st)
                      (Some e)
          end
      end
  end.

(** The whole loop over the member set, iterated in the order in which the
    set enumerates its elements. *)
Definition sweep (send : WebSocket → SendOutcome) (now : string → datetime)
    (m : ConnectionManager) (members : gset string) : Sweep :=
  foldl (sweep_step send now (active_connections m))
        (mkSweep (connection_info m) [] [] None) (elements members).

(** What a broadcast has done when control leaves it: the manager it
    leaves, the recipients the payload was handed to, and the exception it
    raises, if it does not return. *)
Record Broadcast : Type := mkBroadcast {
  manager : ConnectionManager;
  recipients : list string;
  raised : option Exception;
}.

(** The end of a broadcast (lines 150-152): the cleanup loop calls
    [disconnect] on every client noted in [disconnected]. It is reached
    only if no exception has left the delivery loop. *)
Definition cleanup (m : ConnectionManager) (st : Sweep) : Broadcast :=
  let m1 := mkManager (active_connections m) (room_connections m)
              (user_connections m) (sweep_info st) in
  match escaped st with
  | Some e => mkBroadcast m1 (delivered st) (Some e)
  | None => mkBroadcast (foldl disconnect m1 (disconnected st))
              (delivered st) None
  end.

(** [broadcast_to_room] (lines 133-152). The payload itself is not
    inspected by the manager. *)
Definition broadcast_to_room (send : WebSocket → SendOutcome)
    (now : string → datetime) (m : ConnectionManager) (message : string)
    (rid : Z) : Broadcast :=
  match room_connections m !! rid with
  | None => mkBroadcast m [] None
  | Some members => cleanup m (sweep send now m members)
  end.

(** ** Diagnostics *)

Module schemas.
(** [schemas.WSConnectionInfo] *)
Record WSConnectionInfo : Type := mkWSConnectionInfo {
  total_connections : nat;
  active_connections : nat;
  connections_by_room : gmap Z nat;
}.
End schemas.

(** [get_connections_info] (lines 175-185): a read of the manager. *)
Definition get_connections_info (m : ConnectionManager)
    : schemas.WSConnectionInfo :=
  let connections_by_room := size <$> room_connections m in
  schemas.mkWSConnectionInfo
    (size (connection_info m))
    (size (active_connections m))
    connections_by_room.

(** ** Sequences of lifecycle operations *)

Inductive Op : Type :=
  | Connect (websocket : WebSocket) (client_id : option string)
      (uid rid : option Z) (uuid : string) (t_conn t_active : datetime)
  | Disconnect (client_id : string)
  | JoinRoom (client_id : string) (rid : Z)
  | LeaveRoom (client_id : string) (rid : Z).

Definition step (m : ConnectionManager) (o : Op) : ConnectionManager :=
  match o with
  | Connect ws c uid rid uuid t1 t2 => (connect m ws c uid rid uuid t1 t2).1
  | Disconnect c => disconnect m c
  | JoinRoom c r => (join_room m c r).1
  | LeaveRoom c r => (leave_room m c r).1
  end.

(** The manager after a sequence of operations on a fresh one. *)
Definition run (ops : list Op) : ConnectionManager :=
  foldl step init ops.

(** [str(uuid.uuid4())] is a 36-character string, in particular not empty. *)
Definition wf_op (o : Op) : Prop :=
  match o with
  | Connect _ _ _ _ uuid _ _ => uuid ≠ ""
  | _ => True
  end.

Definition is_connect (o : Op) : bool :=
  match o with
  | Connect _ _ _ _ _ _ _ => true
  | _ => false
  end.

(** The number of connections ever registered by a sequence: its count of
    [connect] calls. The manager itself stores no such number. *)
Definition registrations (ops : list Op) : nat :=
  length (List.filter is_connect ops).

(** ** The other senders of the manager *)

(** What became of the payload of a personal message. The method itself
    returns [None]; [Raised e] is the exception [e] of the send leaving the
    method, which has no handler of its own. *)
Inductive Sent : Type :=
  | NoHandle
  | Delivered
  | Raised (e : Exception).

(** [send_personal_message] (lines 108-115). [now] is the reading of
    [datetime.now()] after the send. *)
Definition send_personal_message (send : WebSocket → SendOutcome)
    (now : datetime) (m : ConnectionManager) (message : string)
    (client_id : string) : ConnectionManager * Sent :=
  match active_connections m !! client_id with
  | None => (m, NoHandle)
  | Some websocket =>
      match send websocket with
      | Returns =>
          (mkManager (active_connections m) (room_connections m)
             (user_connections m)
             (alter (set_last_active now) client_id (connection_info m)),
           Delivered)
      | Raises e => (m, Raised e)
      end
  end.

(** One iteration of the loop of [broadcast] (lines 120-127), over an item
    of [active_connections.items()]; the same [try] as in the room
    broadcast. *)
Definition broadcast_step (send : WebSocket → SendOutcome)
    (now : string → datetime) (st : Sweep) (item : string * WebSocket)
    : Sweep :=
  let '(client_id, websocket) := item in
  match escaped st with
  | Some _ => st
  | None =>
      match send websocket with
      | Returns =>
          mkSweep (alter (set_last_active (now client_id)) client_id
                     (sweep_info st))
                  (delivered st ++ [client_id]) (disconnected st) None
      | Raises WebSocketDisconnect =>
          mkSweep (sweep_info st) (delivered st)
                  (disconnected st ++ [client_id]) None
      | Raises e =>
          mkSweep (sweep_info st) (delivered st) (disconnected st) (Some e)
      end
  end.

(** [broadcast] (lines 117-131). The items are visited in the order in
    which the map enumerates them. *)
Definition broadcast (send : WebSocket → SendOutcome)
    (now : string → datetime) (m : ConnectionManager) (message : string)
    : Broadcast :=
  cleanup m
    (foldl (broadcast_step send now)
       (mkSweep (connection_info m) [] [] None)
       (map_to_list (active_connections m))).

(** [broadcast_to_user] (lines 154-173): the loop of [broadcast_to_room]
    over the connections of a user. *)
Definition broadcast_to_user (send : WebSocket → SendOutcome)
    (now : string → datetime) (m : ConnectionManager) (message : string)
    (uid : Z) : Broadcast :=
  match user_connections m !! uid with
  | None => mkBroadcast m [] None
  | Some members => cleanup m (sweep send now m members)
  end.

(** ** What the endpoints do when a client goes away *)

(** The [except WebSocketDisconnect] branch of the authenticated endpoint
    ([routers/websocket.py], lines 236-253): disconnect, then look the room
    of the client up in the metadata and notify that room. [notice r] is the
    [user_disconnected] payload for room [r]. *)
Definition auth_endpoint_disconnected (send : WebSocket → SendOutcome)
    (now : string → datetime) (m : ConnectionManager) (client_id : string)
    (notice : Z → string) : Broadcast :=
  let m1 := disconnect m client_id in
  let rid := connection_info m1 !! client_id ≫= room_id in
  if truthy_int rid
  then broadcast_to_room send now m1 (notice (default 0 rid)) (default 0 rid)
  else mkBroadcast m1 [] None.

(** The same branch of the room endpoint ([routers/websocket.py], lines
    396-410): disconnect, then notify the room of the path. *)
Definition room_endpoint_disconnected (send : WebSocket → SendOutcome)
    (now : string → datetime) (m : ConnectionManager) (client_id : string)
    (rid : Z) (notice : string) : Broadcast :=
  broadcast_to_room send now (disconnect m client_id) notice rid.

(** ** Sequences of calls to any method of the manager *)

Inductive Action : Type :=
  | Lifecycle (o : Op)
  | Personal (send : WebSocket → SendOutcome) (now : datetime)
      (message client_id : string)
  | BroadcastAll (send : WebSocket → SendOutcome) (now : string → datetime)
      (message : string)
  | BroadcastRoom (send : WebSocket → SendOutcome) (now : string → datetime)
      (message : string) (rid : Z)
  | BroadcastUser (send : WebSocket → SendOutcome) (now : string → datetime)
      (message : string) (uid : Z).

(** The manager a call leaves behind, whether it returns or raises. *)
Definition exec (m : ConnectionManager) (a : Action) : ConnectionManager :=
  match a with
  | Lifecycle o => step m o
  | Personal send now msg c => (send_personal_message send now m msg c).1
  | BroadcastAll send now msg => manager (broadcast send now m msg)
  | BroadcastRoom send now msg r => manager (broadcast_to_room send now m msg r)
  | BroadcastUser send now msg u => manager (broadcast_to_user send now m msg u)
  end.

(** The manager after a sequence of calls on a fresh one. *)
Definition reach (acts : list Action) : ConnectionManager :=
  foldl exec init acts.

(** ** Predicates and scenarios used in the statements *)

(** What [remove]-then-prune leaves at the key it works on. *)
Definition pruned (s : gset string) (c : string) : option (gset string) :=
  if decide (s ∖ {[c]} = ∅) then None else Some (s ∖ {[c]}).

(** No key of an index is bound to the empty set. *)
Definition no_empty_set (idx : gmap Z (gset string)) : Prop :=
  ∀ k s, idx !! k = Some s → s ≠ ∅.

(** Neither index of the manager binds a key to the empty set. *)
Definition pruned_indices (m : ConnectionManager) : Prop :=
  no_empty_set (room_connections m) ∧ no_empty_set (user_connections m).

(** A handle and a metadata record exist for the same ids. *)
Definition paired (m : ConnectionManager) : Prop :=
  dom (active_connections m) = dom (connection_info m).

(** Every member of a room or user set has a handle. *)
Definition members_registered (m : ConnectionManager) : Prop :=
  (∀ k s c, room_connections m !! k = Some s → c ∈ s →
            c ∈ dom (active_connections m)) ∧
  (∀ k s c, user_connections m !! k = Some s → c ∈ s →
            c ∈ dom (active_connections m)).

(** A client that joins room 5, then room 7, then disconnects. *)
Definition stale_room_run : list Op :=
  [ Connect (Handle 0) (Some "a") None None
      "123e4567-e89b-42d3-a456-426614174000" 0 0;
    JoinRoom "a" 5;
    JoinRoom "a" 7;
    Disconnect "a" ].

(** Membership of [c] in the entry of room [r]; no entry, no member. *)
Definition in_room (m : ConnectionManager) (c : string) (r : Z) : Prop :=
  c ∈ default ∅ (room_connections m !! r).


(** The result of the send to [c], if [c] has a handle. *)
Definition outcome (send : WebSocket → SendOutcome)
    (active : gmap string WebSocket) (c : string) : option SendOutcome :=
  send <$> active !! c.



(** Membership of [c] in the entry of user [u]. *)
Definition in_user (m : ConnectionManager) (c : string) (u : Z) : Prop :=
  c ∈ default ∅ (user_connections m !! u).

(** The room and the user recorded in the metadata of [c], if any. *)
Definition recorded_room (m : ConnectionManager) (c : string) : option Z :=
  connection_info m !! c ≫= room_id.

Definition recorded_user (m : ConnectionManager) (c : string) : option Z :=
  connection_info m !! c ≫= user_id.

(** Two metadata dictionaries that differ at most in [last_active]
    stamps. *)
Definition same_but_last_active (i1 i2 : gmap string ConnInfo) : Prop :=
  ∀ c, set_last_active 0 <$> i1 !! c = set_last_active 0 <$> i2 !! c.

(** The indices agree with the metadata: a member of a room or user entry
    is registered and its metadata records that very room or user, which is
    not 0. *)
Definition tracked (m : ConnectionManager) : Prop :=
  paired m ∧
  (∀ c k, in_room m c k →
          k ≠ 0 ∧ c ∈ dom (active_connections m) ∧
          recorded_room m c = Some k) ∧
  (∀ c u, in_user m c u →
          u ≠ 0 ∧ c ∈ dom (active_connections m) ∧
          recorded_user m c = Some u).

(** A call that keeps to one room per connection: [connect] registers an
    id that is not registered yet, and [join_room] is called with a room
    other than 0 by a client that is in no other room. Every other call is
    unrestricted. *)
Definition disciplined (m : ConnectionManager) (a : Action) : Prop :=
  match a with
  | Lifecycle (Connect ws c uid rid uuid t1 t2) =>
      (connect m ws c uid rid uuid t1 t2).2 ∉ dom (active_connections m)
  | Lifecycle (JoinRoom c r) => r ≠ 0 ∧ ∀ k, in_room m c k → k = r
  | _ => True
  end.

Fixpoint disciplined_from (m : ConnectionManager) (acts : list Action)
    : Prop :=
  match acts with
  | [] => True
  | a :: acts => disciplined m a ∧ disciplined_from (exec m a) acts
  end.


(** * Properties *)

(** ** The two index updates, by their lookups *)

Section index.
Implicit Types (idx : gmap Z (gset string)) (k : Z) (c : string).

Lemma index_add_lookup idx k c k' :
  index_add k c idx !! k' =
  if decide (k = k') then Some (default ∅ (idx !! k) ∪ {[c]}) else idx !! k'.
Proof.
  unfold index_add. case_decide as Hk.
  - subst k'. destruct (idx !! k) as [s|] eqn:E.
    + by rw lookup_alter_eq E.
    + by rw lookup_alter_eq lookup_insert_eq.
  - rw lookup_alter_ne //.
    destruct (idx !! k); [done|]. by rw lookup_insert_ne.
Qed.

Lemma index_discard_lookup idx k c k' :
  index_discard k c idx !! k' =
  if decide (k = k') then idx !! k ≫= (λ s, pruned s c) else idx !! k'.
Proof.
  unfold index_discard, pruned.
  destruct (idx !! k) as [s|] eqn:E; last first.
  { case_decide; by subst. }
  cbv zeta. destruct (decide (c ∈ s)) as [Hc|Hc].
  - rw (bool_decide_eq_true_2 _ Hc) lookup_alter_eq E /=.
    destruct (decide (s ∖ {[c]} = ∅)) as [He|He].
    + rw (bool_decide_eq_true_2 _ He). case_decide as Hk; simplify_eq.
      * by rw lookup_delete_eq.
      * by rw lookup_delete_ne // lookup_alter_ne.
    + rw (bool_decide_eq_false_2 _ He). case_decide as Hk; simplify_eq.
      * by rw lookup_alter_eq E.
      * by rw lookup_alter_ne.
  - rw (bool_decide_eq_false_2 _ Hc) E /=.
    assert (s ∖ {[c]} = s) as Hs
      by (by apply difference_disjoint_L, disjoint_singleton_r).
    rw Hs.
    destruct (decide (s = ∅)) as [He|He].
    + rw (bool_decide_eq_true_2 _ He). case_decide as Hk; simplify_eq.
      * by rw lookup_delete_eq.
      * by rw lookup_delete_ne.
    + rw (bool_decide_eq_false_2 _ He). case_decide as Hk; simplify_eq.
      * by rw E.
      * done.
Qed.

Lemma index_add_no_empty idx k c :
  no_empty_set idx → no_empty_set (index_add k c idx).
Proof.
  intros H k' s. rw index_add_lookup. case_decide.
  - intros [= <-]. set_solver.
  - apply H.
Qed.

Lemma index_discard_no_empty idx k c :
  no_empty_set idx → no_empty_set (index_discard k c idx).
Proof.
  intros H k' s. rw index_discard_lookup. case_decide.
  - destruct (idx !! k) as [s0|]; simpl; [|done].
    unfold pruned. case_decide; [done|]. by intros [= <-].
  - apply H.
Qed.

Lemma index_add_keeps idx k c k' s :
  idx !! k' = Some s → ∃ s', index_add k c idx !! k' = Some s' ∧ s ⊆ s'.
Proof.
  intros E. rw index_add_lookup. case_decide.
  - subst. rw E /=. eexists; split; [done|set_solver].
  - eauto.
Qed.
End index.

(** [leave_room] written with the lookup form of its index update. *)
Lemma leave_room_rooms m c r s :
  room_connections m !! r = Some s → c ∈ s →
  room_connections (leave_room m c r).1 = index_discard r c (room_connections m).
Proof.
  intros E Hc. unfold leave_room, index_discard.
  rw E bool_decide_eq_true_2 //=.
Qed.

(** ** Invariants of operation sequences *)

Lemma run_snoc ops o : run (ops ++ [o]) = step (run ops) o.
Proof. unfold run. by rw foldl_snoc. Qed.

(** An invariant that holds initially and that every step keeps holds
    after every sequence. *)
Lemma run_ind (P : ConnectionManager → Prop) :
  P init → (∀ m o, P m → P (step m o)) → ∀ ops, P (run ops).
Proof.
  intros H0 Hstep ops. induction ops as [|o ops IH] using rev_ind.
  - exact H0.
  - rw run_snoc. by apply Hstep.
Qed.

Lemma connect_paired m ws c uid rid uuid t1 t2 :
  paired m → paired (connect m ws c uid rid uuid t1 t2).1.
Proof. unfold paired, connect; simpl. intros H. by rw !dom_insert_L H. Qed.

Lemma disconnect_paired m c : paired m → paired (disconnect m c).
Proof.
  unfold paired, disconnect. intros H.
  destruct (active_connections m !! c); [|done].
  simpl. by rw !dom_delete_L H.
Qed.

Lemma join_room_paired m c r : paired m → paired (join_room m c r).1.
Proof.
  unfold paired, join_room. intros H.
  destruct (active_connections m !! c); [|done].
  simpl. by rw dom_alter_L.
Qed.

Lemma leave_room_paired m c r : paired m → paired (leave_room m c r).1.
Proof.
  unfold paired, leave_room. intros H.
  destruct (room_connections m !! r); [|done].
  case_bool_decide; [|done]. simpl. by rw dom_alter_L.
Qed.

Lemma step_paired m o : paired m → paired (step m o).
Proof.
  destruct o; simpl; intros H.
  - by apply connect_paired.
  - by apply disconnect_paired.
  - by apply join_room_paired.
  - by apply leave_room_paired.
Qed.

Lemma step_pruned_indices m o : pruned_indices m → pruned_indices (step m o).
Proof.
  intros [Hr Hu]. destruct o as [ws c uid rid uuid t1 t2|c|c r|c r]; simpl.
  - unfold connect; split; simpl;
      case_match; auto using index_add_no_empty.
  - unfold disconnect. destruct (active_connections m !! c); [|done].
    split; simpl; case_match; auto using index_discard_no_empty.
  - unfold join_room. destruct (active_connections m !! c); [|done].
    split; simpl; auto using index_add_no_empty.
  - destruct (room_connections m !! r) as [s|] eqn:E;
      [destruct (decide (c ∈ s)) as [Hc|Hc]|].
    + split.
      * rw (leave_room_rooms _ _ _ _ E Hc). by apply index_discard_no_empty.
      * unfold leave_room. by rw E (bool_decide_eq_true_2 _ Hc).
    + unfold leave_room. by rw E (bool_decide_eq_false_2 _ Hc).
    + unfold leave_room. by rw E.
Qed.

Lemma run_pruned_indices ops : pruned_indices (run ops).
Proof.
  apply run_ind; [|apply step_pruned_indices].
  split; intros k s; simpl; by rw lookup_empty.
Qed.

(** The empty string is never a registered id, as long as generated ids
    are not empty. *)
Lemma step_nonempty_ids m o :
  wf_op o → "" ∉ dom (active_connections m) →
  "" ∉ dom (active_connections (step m o)).
Proof.
  intros Hwf H. destruct o as [ws c uid rid uuid t1 t2|c|c r|c r]; simpl in *.
  - rw dom_insert_L. apply not_elem_of_union; split; [|done].
    apply not_elem_of_singleton.
    destruct c as [c|]; simpl; [|done].
    destruct (String.eqb_spec c ""); simpl; [done|]. congruence.
  - unfold disconnect. destruct (active_connections m !! c); [|done].
    simpl. rw dom_delete_L. apply not_elem_of_difference; by left.
  - unfold join_room. by destruct (active_connections m !! c).
  - unfold leave_room. destruct (room_connections m !! r); [|done].
    by case_bool_decide.
Qed.

Lemma run_nonempty_ids ops :
  Forall wf_op ops → "" ∉ dom (active_connections (run ops)).
Proof.
  induction ops as [|o ops IH] using rev_ind; intros Hwf.
  - unfold run; simpl. set_solver.
  - apply Forall_app in Hwf as [Hops Ho]. rw run_snoc.
    apply step_nonempty_ids; [by inversion Ho|auto].
Qed.

Lemma run_paired_inv ops : paired (run ops).
Proof.
  apply (run_ind paired); [|apply step_paired].
  unfold paired; simpl. by rw !dom_empty_L.
Qed.

Lemma disconnect_unregisters m c :
  active_connections (disconnect m c) !! c = None.
Proof.
  unfold disconnect.
  destruct (active_connections m !! c) eqn:E; [|done].
  simpl. by rw lookup_delete_eq.
Qed.

(** ** Handles and metadata records *)

(** C5. After every sequence of [connect], [disconnect], [join_room] and
    [leave_room] on a fresh manager, [active_connections] and
    [connection_info] have the same key set: a handle exists for an id
    exactly when its metadata record does. Each single operation keeps the
    two key sets equal ([step_paired]). *)
Theorem run_paired (ops : list Op) :
  dom (active_connections (run ops)) = dom (connection_info (run ops)).
Proof.
  apply (run_ind paired); [|apply step_paired].
  unfold paired; simpl. by rw !dom_empty_L.
Qed.

(** ** Index members and registered ids *)

(** C1. At [stale_room_run] the manager ends with no handle for ["a"] while
    room 5 still lists it: [disconnect] cleans only the room recorded in the
    metadata, so the members of the indices are not all registered. (No
    index value is ever empty: [run_pruned_indices].) *)
Theorem disconnect_leaves_stale_member :
  active_connections (run stale_room_run) !! "a" = None ∧
  room_connections (run stale_room_run) !! 5 = Some {["a"]} ∧
  ¬ members_registered (run stale_room_run).
Proof.
  assert (active_connections (run stale_room_run) !! "a" = None) as Ha
    by (vm_compute; reflexivity).
  assert (room_connections (run stale_room_run) !! 5 = Some {["a"]}) as Hr
    by (vm_compute; reflexivity).
  split; [done|]. split; [done|].
  intros [Hrooms _].
  specialize (Hrooms 5 {["a"]} "a" Hr).
  apply not_elem_of_dom in Ha. apply Ha, Hrooms.
  by apply elem_of_singleton.
Qed.

(** ** Removal is idempotent *)

(** C4. After [disconnect m cid] the id has no handle, so a second
    [disconnect] on it leaves through the not-registered exit of line 73
    and returns the manager as it was: none of the four dictionaries
    changes. *)
Theorem disconnect_idempotent (m : ConnectionManager) (cid : string) :
  active_connections (disconnect m cid) !! cid = None ∧
  disconnect (disconnect m cid) cid = disconnect m cid.
Proof.
  assert (active_connections (disconnect m cid) !! cid = None) as H.
  { unfold disconnect.
    destruct (active_connections m !! cid) eqn:E; [|done].
    simpl. by rw lookup_delete_eq. }
  split; [done|].
  unfold disconnect at 1. by rw H.
Qed.

(** ** Leaving a room one is not in *)

(** C6. When [cid] is not a member of the entry of room [rid], which
    includes the room having no entry, [leave_room] returns [False] and the
    manager is unchanged. *)
Theorem leave_room_not_member (m : ConnectionManager) (cid : string) (rid : Z) :
  cid ∉ default ∅ (room_connections m !! rid) →
  leave_room m cid rid = (m, false).
Proof.
  intros H. unfold leave_room.
  destruct (room_connections m !! rid) as [s|]; [|done].
  simpl in H. by rw (bool_decide_eq_false_2 _ H).
Qed.

Lemma leave_room_not_member_witness :
  leave_room (run [Connect (Handle 0) (Some "a") None (Some 5) "u" 0 0])
    "b" 5
  = (run [Connect (Handle 0) (Some "a") None (Some 5) "u" 0 0], false)
  ∧ leave_room init "a" 9 = (init, false).
Proof.
  split.
  - apply leave_room_not_member. vm_compute. discriminate.
  - apply leave_room_not_member. vm_compute. discriminate.
Defined.

(** ** Joining a second room *)

Lemma join_room_registered m c r w :
  active_connections m !! c = Some w →
  join_room m c r =
    (mkManager (active_connections m)
       (index_add r c (room_connections m)) (user_connections m)
       (alter (set_room (Some r)) c (connection_info m)), true).
Proof. intros E. unfold join_room. by rw E. Qed.


Lemma join_room_stays_in_room m c r c' r' :
  in_room m c' r' → in_room (join_room m c r).1 c' r'.
Proof.
  unfold in_room, join_room. intros H.
  destruct (active_connections m !! c); [|done]. simpl.
  destruct (room_connections m !! r') as [s|] eqn:E; [|set_solver].
  destruct (index_add_keeps _ r c _ _ E) as (s' & -> & Hs). set_solver.
Qed.




(** ** The diagnostic snapshot *)

Lemma registrations_snoc ops o :
  registrations (ops ++ [o]) =
  (registrations ops + (if is_connect o then 1 else 0))%nat.
Proof.
  unfold registrations. rw List.filter_app length_app. simpl.
  by destruct (is_connect o).
Qed.

Lemma step_info_size m o :
  (size (connection_info (step m o)) ≤
   size (connection_info m) + (if is_connect o then 1 else 0))%nat.
Proof.
  destruct o as [ws c uid rid uuid t1 t2|c|c r|c r]; simpl.
  - set (cid := if truthy_str c then _ else _).
    set (i := mkConnInfo _ _ _ _).
    rw map_size_insert. destruct (connection_info m !! cid); simpl; lia.
  - unfold disconnect. destruct (active_connections m !! c); [|lia].
    simpl. rw map_size_delete.
    destruct (connection_info m !! c); simpl; lia.
  - unfold join_room. destruct (active_connections m !! c); [|simpl; lia].
    simpl. rw -!size_dom dom_alter_L. lia.
  - unfold leave_room. destruct (room_connections m !! r); [|simpl; lia].
    case_bool_decide; [|simpl; lia]. simpl. rw -!size_dom dom_alter_L. lia.
Qed.

Lemma run_info_size ops :
  (size (connection_info (run ops)) ≤ registrations ops)%nat.
Proof.
  induction ops as [|o ops IH] using rev_ind.
  - unfold run; simpl. rw map_size_empty. lia.
  - rw run_snoc registrations_snoc.
    pose proof (step_info_size (run ops) o). lia.
Qed.

(** One client registers and disconnects: one connection was ever
    registered, and the snapshot reports a total of zero. *)
Lemma total_connections_not_ever_registered :
  let ops := [Connect (Handle 0) (Some "a") None None "u" 0 0;
              Disconnect "a"] in
  registrations ops = 1%nat ∧
  schemas.total_connections (get_connections_info (run ops)) = 0%nat ∧
  schemas.total_connections (get_connections_info (run ops))
    ≠ registrations ops.
Proof. vm_compute. repeat split; [done..|discriminate]. Qed.

(** C7, amended. [get_connections_info] is a function of the manager alone.
    After any sequence of operations, [total_connections] is the number of
    metadata records currently held, which equals [active_connections], the
    number of handles currently held, and never exceeds the number of
    registrations performed; [connections_by_room] has the keys of
    [room_connections] and maps each to the size of its member set. *)
Theorem get_connections_info_counts (ops : list Op) :
  let i := get_connections_info (run ops) in
  schemas.total_connections i = size (dom (connection_info (run ops))) ∧
  schemas.active_connections i = size (dom (active_connections (run ops))) ∧
  schemas.total_connections i = schemas.active_connections i ∧
  (schemas.total_connections i ≤ registrations ops)%nat ∧
  dom (schemas.connections_by_room i) = dom (room_connections (run ops)) ∧
  ∀ r, schemas.connections_by_room i !! r
       = size <$> room_connections (run ops) !! r.
Proof.
  simpl. rw !size_dom. repeat split.
  - by rw -!size_dom (run_paired_inv ops).
  - apply run_info_size.
  - by rw dom_fmap_L.
  - intros r. by rw lookup_fmap.
Qed.

(** ** Disconnecting the only member of a room *)

Lemma connect_registers m ws c uid rid uuid t1 t2 :
  let r := connect m ws c uid rid uuid t1 t2 in
  active_connections r.1 !! r.2 = Some ws ∧
  connection_info r.1 !! r.2 = Some (mkConnInfo uid rid t1 t2).
Proof. unfold connect; simpl. by rw !lookup_insert_eq. Qed.

Lemma broadcast_to_room_no_entry send now m msg r :
  room_connections m !! r = None →
  broadcast_to_room send now m msg r = mkBroadcast m [] None.
Proof. intros E. unfold broadcast_to_room. by rw E. Qed.

(** C8. A client connects and joins room 1, of which it is then the only
    member, and disconnects without [leave_room]: the entry of room 1 is
    removed from [room_connections], and a later [broadcast_to_room] to
    room 1 hands the payload to no recipient, raises nothing and leaves
    the manager unchanged. *)
Theorem disconnect_prunes_sole_member
    (m : ConnectionManager) (ws : WebSocket) (c : option string)
    (uid rid : option Z) (uuid : string) (t1 t2 : Z) :
  let m1 := (connect m ws c uid rid uuid t1 t2).1 in
  let cid := (connect m ws c uid rid uuid t1 t2).2 in
  let m2 := (join_room m1 cid 1).1 in
  let m3 := disconnect m2 cid in
  room_connections m2 !! 1 = Some {[cid]} →
  (join_room m1 cid 1).2 = true ∧
  active_connections m3 !! cid = None ∧
  room_connections m3 !! 1 = None ∧
  ∀ send now msg,
    broadcast_to_room send now m3 msg 1 = mkBroadcast m3 [] None.
Proof.
  intros m1 cid m2 m3.
  destruct (connect_registers m ws c uid rid uuid t1 t2) as [Hw Hi].
  fold m1 cid in Hw, Hi.
  subst m3 m2. rw (join_room_registered _ _ 1 _ Hw). simpl. intros Hroom.
  assert (room_connections
            (disconnect
               (mkManager (active_connections m1)
                  (index_add 1 cid (room_connections m1))
                  (user_connections m1)
                  (alter (set_room (Some 1)) cid (connection_info m1))) cid)
          !! 1 = None) as Hgone.
  { unfold disconnect; simpl. rw Hw lookup_alter_eq Hi. simpl.
    rw index_discard_lookup. case_decide; [|done]. rw Hroom. simpl.
    unfold pruned. case_decide as He; [done|]. destruct He.
    apply difference_diag_L. }
  split; [done|]. split; [apply disconnect_unregisters|].
  split; [done|]. intros send now msg.
  by apply broadcast_to_room_no_entry.
Qed.

Lemma disconnect_prunes_sole_member_witness :
  let m3 :=
    disconnect
      (join_room (connect init (Handle 0) None (Some 3) None "u1" 0 0).1
         "u1" 1).1 "u1" in
  room_connections m3 !! 1 = None ∧
  broadcast_to_room (λ _, Returns) (λ _, 0) m3 "hello" 1
  = mkBroadcast m3 [] None.
Proof.
  destruct (disconnect_prunes_sole_member init (Handle 0) None (Some 3) None
              "u1" 0 0) as (_ & _ & Hroom & Hsend).
  - vm_compute. reflexivity.
  - split; [exact Hroom|apply Hsend].
Defined.

(** ** Registering an id a second time *)

Lemma connect_given_id m ws cid uid rid uuid t1 t2 :
  cid ≠ "" →
  connect m ws (Some cid) uid rid uuid t1 t2 =
    (mkManager (<[cid := ws]> (active_connections m))
       (if truthy_int rid
        then index_add (default 0 rid) cid (room_connections m)
        else room_connections m)
       (if truthy_int uid
        then index_add (default 0 uid) cid (user_connections m)
        else user_connections m)
       (<[cid := mkConnInfo uid rid t1 t2]> (connection_info m)),
     cid).
Proof.
  intros Hne. unfold connect; simpl.
  by destruct (String.eqb_spec cid "").
Qed.

(** C10. [connect] called with a [client_id] that is already registered
    (in a manager reached by any sequence of operations whose generated
    ids are not empty) returns that same id; the handle and the metadata
    record of the id are overwritten by the new ones, no id is added, and
    every member of every room and user set is still a member of it
    afterwards: nothing of the earlier registration is cleaned up. *)
Theorem connect_existing_id
    (ops : list Op) (cid : string) (ws : WebSocket) (uid rid : option Z)
    (uuid : string) (t1 t2 : Z) :
  Forall wf_op ops →
  cid ∈ dom (active_connections (run ops)) →
  let m := run ops in
  let r := connect m ws (Some cid) uid rid uuid t1 t2 in
  r.2 = cid ∧
  active_connections r.1 = <[cid := ws]> (active_connections m) ∧
  dom (active_connections r.1) = dom (active_connections m) ∧
  connection_info r.1
    = <[cid := mkConnInfo uid rid t1 t2]> (connection_info m) ∧
  (∀ k s, room_connections m !! k = Some s →
          ∃ s', room_connections r.1 !! k = Some s' ∧ s ⊆ s') ∧
  (∀ k s, user_connections m !! k = Some s →
          ∃ s', user_connections r.1 !! k = Some s' ∧ s ⊆ s').
Proof.
  intros Hwf Hc m r.
  assert (cid ≠ "") as Hne.
  { intros ->. by apply (run_nonempty_ids ops Hwf). }
  subst r. rw (connect_given_id _ _ _ _ _ _ _ _ Hne). simpl.
  split; [done|]. split; [done|]. split.
  { rw dom_insert_L. apply subseteq_union_1_L.
    by apply singleton_subseteq_l. }
  split; [done|]. split; intros k s E.
  - destruct (truthy_int rid); [by apply index_add_keeps|eauto].
  - destruct (truthy_int uid); [by apply index_add_keeps|eauto].
Qed.

Lemma connect_existing_id_witness :
  let m := run [Connect (Handle 0) (Some "a") (Some 3) (Some 5) "u1" 0 0] in
  (connect m (Handle 1) (Some "a") (Some 4) (Some 6) "u2" 1 1).2 = "a".
Proof.
  apply (connect_existing_id
           [Connect (Handle 0) (Some "a") (Some 3) (Some 5) "u1" 0 0]).
  - repeat constructor. discriminate.
  - apply elem_of_dom. vm_compute. eauto.
Defined.

(** * Further properties of the manager *)

(** ** Membership after an index update *)

Lemma index_add_member (idx : gmap Z (gset string)) k c k' c' :
  c' ∈ default ∅ (index_add k c idx !! k') ↔
  (c' = c ∧ k' = k) ∨ c' ∈ default ∅ (idx !! k').
Proof.
  rw index_add_lookup. case_decide as Hk; simpl.
  - subst k'. rw elem_of_union elem_of_singleton. naive_solver.
  - naive_solver.
Qed.

Lemma index_discard_member (idx : gmap Z (gset string)) k c k' c' :
  c' ∈ default ∅ (index_discard k c idx !! k') ↔
  c' ∈ default ∅ (idx !! k') ∧ ¬ (c' = c ∧ k' = k).
Proof.
  rw index_discard_lookup. case_decide as Hk; [|naive_solver].
  subst k'. destruct (idx !! k) as [s|]; simpl.
  - unfold pruned. case_decide as He; simpl.
    + split; [intros []%not_elem_of_empty|].
      intros [Hin Hne]. assert (c' ∈ s ∖ {[c]}) as Hd.
      { apply elem_of_difference. split; [done|].
        rw elem_of_singleton. naive_solver. }
      by rw He in Hd.
    + rw elem_of_difference elem_of_singleton. naive_solver.
  - split; [intros []%not_elem_of_empty|naive_solver].
Qed.

(** Adding a client that is not a member and discarding it again restores
    an index that binds no key to the empty set. *)
Lemma index_discard_add (idx : gmap Z (gset string)) k c :
  no_empty_set idx → c ∉ default ∅ (idx !! k) →
  index_discard k c (index_add k c idx) = idx.
Proof.
  intros Hne Hc. apply map_eq. intros k'.
  rw index_discard_lookup. case_decide as Hk.
  - subst k'. rw index_add_lookup. case_decide; [|done]. simpl.
    unfold pruned. destruct (idx !! k) as [s|] eqn:E; simpl in *.
    + assert ((s ∪ {[c]}) ∖ {[c]} = s) as -> by set_solver.
      case_decide as He; [by apply Hne in E|done].
    + assert (((∅ : gset string) ∪ {[c]}) ∖ {[c]} = ∅) as -> by set_solver.
      by case_decide.
  - rw index_add_lookup. by case_decide.
Qed.

(** ** What [disconnect] does to each dictionary *)

Lemma disconnect_active m c :
  active_connections (disconnect m c) = delete c (active_connections m).
Proof.
  unfold disconnect. destruct (active_connections m !! c) eqn:E; [done|].
  by rw delete_id.
Qed.

Lemma disconnect_info m c :
  paired m →
  connection_info (disconnect m c) = delete c (connection_info m).
Proof.
  intros Hp. unfold disconnect.
  destruct (active_connections m !! c) eqn:E; [done|].
  rw delete_id //. apply not_elem_of_dom. rw -Hp. by apply not_elem_of_dom.
Qed.

Lemma disconnect_in_room m c c' k :
  in_room (disconnect m c) c' k ↔
  in_room m c' k ∧
  ¬ (c' = c ∧ c ∈ dom (active_connections m) ∧
     recorded_room m c = Some k ∧ k ≠ 0).
Proof.
  unfold in_room, recorded_room, disconnect.
  destruct (active_connections m !! c) as [w|] eqn:E; simpl.
  - assert (c ∈ dom (active_connections m)) as Hd by (apply elem_of_dom; eauto).
    destruct (connection_info m !! c ≫= room_id) as [z|]; simpl;
      [|naive_solver].
    destruct (Z.eqb_spec z 0) as [->|Hz]; simpl; [naive_solver|].
    rw index_discard_member. naive_solver.
  - apply not_elem_of_dom in E. naive_solver.
Qed.

Lemma disconnect_in_user m c c' u :
  in_user (disconnect m c) c' u ↔
  in_user m c' u ∧
  ¬ (c' = c ∧ c ∈ dom (active_connections m) ∧
     recorded_user m c = Some u ∧ u ≠ 0).
Proof.
  unfold in_user, recorded_user, disconnect.
  destruct (active_connections m !! c) as [w|] eqn:E; simpl.
  - assert (c ∈ dom (active_connections m)) as Hd by (apply elem_of_dom; eauto).
    destruct (connection_info m !! c ≫= user_id) as [z|]; simpl;
      [|naive_solver].
    destruct (Z.eqb_spec z 0) as [->|Hz]; simpl; [naive_solver|].
    rw index_discard_member. naive_solver.
  - apply not_elem_of_dom in E. naive_solver.
Qed.

Lemma disconnect_info_other m c c' :
  c' ≠ c → connection_info (disconnect m c) !! c' = connection_info m !! c'.
Proof.
  intros Hne. unfold disconnect.
  destruct (active_connections m !! c); [|done].
  simpl. by rw lookup_delete_ne.
Qed.

(** X1. [disconnect] takes the handle of [c] away, removes [c] from the
    room and from the user recorded in its metadata, provided [c] was
    registered and the recorded id is not 0, and from no other entry; the
    handle, metadata and memberships of every other client stay as they
    were. *)
Theorem disconnect_effect (m : ConnectionManager) (c : string) :
  active_connections (disconnect m c) = delete c (active_connections m) ∧
  (∀ c' k, in_room (disconnect m c) c' k ↔
           in_room m c' k ∧
           ¬ (c' = c ∧ c ∈ dom (active_connections m) ∧
              recorded_room m c = Some k ∧ k ≠ 0)) ∧
  (∀ c' u, in_user (disconnect m c) c' u ↔
           in_user m c' u ∧
           ¬ (c' = c ∧ c ∈ dom (active_connections m) ∧
              recorded_user m c = Some u ∧ u ≠ 0)) ∧
  (∀ c', c' ≠ c →
         connection_info (disconnect m c) !! c' = connection_info m !! c').
Proof.
  split; [apply disconnect_active|].
  split; [intros; apply disconnect_in_room|].
  split; [intros; apply disconnect_in_user|].
  intros. by apply disconnect_info_other.
Qed.

(** ** Round trips *)

(** X2. Registering an id the manager does not know (no handle, no
    metadata, member of no entry) and disconnecting it again gives back the
    manager one started from, whenever its indices bind no key to the empty
    set. *)
Theorem connect_disconnect_round_trip
    (m : ConnectionManager) (ws : WebSocket) (c : option string)
    (uid rid : option Z) (uuid : string) (t1 t2 : Z) :
  let r := connect m ws c uid rid uuid t1 t2 in
  pruned_indices m →
  paired m →
  r.2 ∉ dom (active_connections m) →
  (∀ k, ¬ in_room m r.2 k) →
  (∀ u, ¬ in_user m r.2 u) →
  disconnect r.1 r.2 = m.
Proof.
  intros r [Hr Hu] Hp Hfresh Hroom Huser. subst r.
  unfold connect in *. simpl in *.
  set (cid := if truthy_str c then default uuid c else uuid) in *.
  assert (active_connections m !! cid = None) as Ha
    by by apply not_elem_of_dom.
  assert (connection_info m !! cid = None) as Hi.
  { apply not_elem_of_dom. by rw -Hp. }
  unfold disconnect. simpl. rw !lookup_insert_eq. simpl.
  rw !delete_insert_eq !delete_id //.
  destruct m as [act rooms users info]. simpl in *. f_equal.
  - destruct (truthy_int rid); [|done].
    apply index_discard_add; [done|apply Hroom].
  - destruct (truthy_int uid); [|done].
    apply index_discard_add; [done|apply Huser].
Qed.

Lemma connect_disconnect_round_trip_witness :
  disconnect
    (connect init (Handle 0) None (Some 3) (Some 5) "u1" 0 0).1 "u1" = init.
Proof.
  apply (connect_disconnect_round_trip init (Handle 0) None (Some 3) (Some 5)
           "u1" 0 0).
  - split; intros k s; simpl; by rw lookup_empty.
  - unfold paired; simpl. by rw !dom_empty_L.
  - simpl. rw dom_empty_L. apply not_elem_of_empty.
  - intros k. unfold in_room; simpl. rw lookup_empty. apply not_elem_of_empty.
  - intros u. unfold in_user; simpl. rw lookup_empty. apply not_elem_of_empty.
Defined.

(** ** Joining and leaving *)

Lemma leave_room_member m c r :
  in_room m c r →
  leave_room m c r =
    (mkManager (active_connections m)
       (index_discard r c (room_connections m)) (user_connections m)
       (alter (set_room None) c (connection_info m)), true).
Proof.
  unfold in_room. intros Hc.
  destruct (room_connections m !! r) as [s|] eqn:E;
    [|by apply not_elem_of_empty in Hc].
  simpl in Hc. unfold leave_room, index_discard.
  by rw E (bool_decide_eq_true_2 _ Hc).
Qed.

(** X3. [join_room] by a registered client returns [True]; afterwards the
    client is a member of the room, every membership there was is still
    there and no other has appeared; the metadata of the client, if it has
    any, records the room; handles, user entries and the metadata of other
    clients are untouched. *)
Theorem join_room_effect (m : ConnectionManager) (c : string) (r : Z) :
  c ∈ dom (active_connections m) →
  let j := join_room m c r in
  j.2 = true ∧
  (∀ c' k, in_room j.1 c' k ↔ (c' = c ∧ k = r) ∨ in_room m c' k) ∧
  (c ∈ dom (connection_info m) → recorded_room j.1 c = Some r) ∧
  (∀ c', c' ≠ c → connection_info j.1 !! c' = connection_info m !! c') ∧
  active_connections j.1 = active_connections m ∧
  user_connections j.1 = user_connections m.
Proof.
  intros [w Hw]%elem_of_dom j. subst j.
  rw (join_room_registered _ _ _ _ Hw). simpl.
  split; [done|]. split.
  { intros c' k. unfold in_room; simpl. apply index_add_member. }
  split.
  { intros [i Hi]%elem_of_dom. unfold recorded_room; simpl.
    by rw lookup_alter_eq Hi. }
  split; [|done]. intros c' Hne. by rw lookup_alter_ne.
Qed.

Lemma join_room_effect_witness :
  in_room
    (join_room (run [Connect (Handle 0) (Some "a") None None "u" 0 0]) "a" 4).1
    "a" 4.
Proof.
  destruct (join_room_effect
              (run [Connect (Handle 0) (Some "a") None None "u" 0 0]) "a" 4)
    as (_ & H & _).
  - apply elem_of_dom. vm_compute. eauto.
  - apply H. by left.
Defined.

(** X4. [leave_room] by a member of the room, registered or not, returns
    [True] and removes exactly that membership; the metadata of the client
    then records no room, whichever room it recorded before; handles, user
    entries and the metadata of other clients are untouched. *)
Theorem leave_room_effect (m : ConnectionManager) (c : string) (r : Z) :
  in_room m c r →
  let l := leave_room m c r in
  l.2 = true ∧
  (∀ c' k, in_room l.1 c' k ↔ in_room m c' k ∧ ¬ (c' = c ∧ k = r)) ∧
  recorded_room l.1 c = None ∧
  (∀ c', c' ≠ c → connection_info l.1 !! c' = connection_info m !! c') ∧
  active_connections l.1 = active_connections m ∧
  user_connections l.1 = user_connections m.
Proof.
  intros Hc l. subst l. rw (leave_room_member _ _ _ Hc). simpl.
  split; [done|]. split.
  { intros c' k. unfold in_room; simpl. apply index_discard_member. }
  split.
  { unfold recorded_room; simpl. rw lookup_alter_eq.
    by destruct (connection_info m !! c). }
  split; [|done]. intros c' Hne. by rw lookup_alter_ne.
Qed.

Lemma leave_room_effect_witness :
  (leave_room
     (run [Connect (Handle 0) (Some "a") None (Some 4) "u" 0 0]) "a" 4).2
  = true.
Proof.
  apply (leave_room_effect
           (run [Connect (Handle 0) (Some "a") None (Some 4) "u" 0 0]) "a" 4).
  unfold in_room. vm_compute. reflexivity.
Defined.

(** X5. A registered client that joins a room it is not in and leaves it
    again: both calls return [True] and [room_connections] is what it was
    before, given that no room was bound to the empty set; only the recorded
    room of the client is lost. *)
Theorem join_leave_round_trip (m : ConnectionManager) (c : string) (r : Z) :
  no_empty_set (room_connections m) →
  c ∈ dom (active_connections m) →
  ¬ in_room m c r →
  let j := join_room m c r in
  let l := leave_room j.1 c r in
  j.2 = true ∧ l.2 = true ∧
  room_connections l.1 = room_connections m ∧
  active_connections l.1 = active_connections m ∧
  user_connections l.1 = user_connections m ∧
  connection_info l.1 = alter (set_room None) c (connection_info m).
Proof.
  intros Hne [w Hw]%elem_of_dom Hnot j l. subst l j.
  rw (join_room_registered _ _ _ _ Hw). simpl.
  rw leave_room_member.
  { unfold in_room; simpl. apply index_add_member. by left. }
  simpl. split; [done|]. split; [done|].
  split; [by apply index_discard_add|].
  split; [done|]. split; [done|].
  apply map_eq. intros c'. destruct (decide (c' = c)) as [->|Hc].
  - rw !lookup_alter_eq. by destruct (connection_info m !! c).
  - by rw !lookup_alter_ne.
Qed.

Lemma join_leave_round_trip_witness :
  room_connections
    (leave_room
       (join_room (run [Connect (Handle 0) (Some "a") None None "u" 0 0])
          "a" 4).1 "a" 4).1
  = room_connections (run [Connect (Handle 0) (Some "a") None None "u" 0 0]).
Proof.
  apply (join_leave_round_trip
           (run [Connect (Handle 0) (Some "a") None None "u" 0 0]) "a" 4).
  - intros k s. vm_compute. discriminate.
  - apply elem_of_dom. vm_compute. eauto.
  - unfold in_room. vm_compute. discriminate.
Defined.

(** ** The delivery loop, for any mix of outcomes *)

Lemma set_last_active_twice t t' (o : option ConnInfo) :
  set_last_active t <$> (set_last_active t' <$> o) = set_last_active t <$> o.
Proof. by destruct o. Qed.

Lemma same_but_last_active_trans (i1 i2 i3 : gmap string ConnInfo) :
  same_but_last_active i1 i2 → same_but_last_active i2 i3 →
  same_but_last_active i1 i3.
Proof. intros H12 H23 c. by rw H12. Qed.

Lemma same_but_last_active_fields (i1 i2 : gmap string ConnInfo) c :
  same_but_last_active i1 i2 →
  i1 !! c ≫= room_id = i2 !! c ≫= room_id ∧
  i1 !! c ≫= user_id = i2 !! c ≫= user_id.
Proof.
  intros H. specialize (H c).
  destruct (i1 !! c) as [[]|], (i2 !! c) as [[]|]; simpl in *;
    by simplify_eq.
Qed.

Section sweep_loop.
Context (send : WebSocket → SendOutcome) (now : string → Z)
        (active : gmap string WebSocket).

(** Once an exception has left the loop, no iteration runs. *)
Lemma sweep_fold_escaped l st e :
  escaped st = Some e → foldl (sweep_step send now active) st l = st.
Proof.
  intros He. induction l as [|c l IH]; [done|].
  simpl. unfold sweep_step at 2. by rw He.
Qed.

(** An iteration, by the outcome of its send. *)
Lemma sweep_step_outcome st c :
  escaped st = None →
  sweep_step send now active st c =
  match outcome send active c with
  | None => st
  | Some Returns =>
      mkSweep (alter (set_last_active (now c)) c (sweep_info st))
        (delivered st ++ [c]) (disconnected st) None
  | Some (Raises WebSocketDisconnect) =>
      mkSweep (sweep_info st) (delivered st) (disconnected st ++ [c]) None
  | Some (Raises e) =>
      mkSweep (sweep_info st) (delivered st) (disconnected st) (Some e)
  end.
Proof.
  intros He. unfold sweep_step, outcome. rw He.
  destruct (active !! c) as [w|]; [|done]. simpl.
  by destruct (send w) as [|[]].
Qed.

(** An iteration on a client whose send does not raise an uncaught
    exception. *)
Lemma sweep_step_caught st c :
  escaped st = None →
  outcome send active c ≠ Some (Raises OtherError) →
  escaped (sweep_step send now active st c) = None ∧
  delivered (sweep_step send now active st c) =
    delivered st ++
    (if decide (outcome send active c = Some Returns) then [c] else []) ∧
  disconnected (sweep_step send now active st c) =
    disconnected st ++
    (if decide (outcome send active c = Some (Raises WebSocketDisconnect))
     then [c] else []) ∧
  ∀ c', sweep_info (sweep_step send now active st c) !! c' =
        if decide (c' = c ∧ outcome send active c = Some Returns)
        then set_last_active (now c') <$> sweep_info st !! c'
        else sweep_info st !! c'.
Proof.
  intros He Hc. rw (sweep_step_outcome st c He).
  destruct (outcome send active c) as [[|[]]|]; try done;
    cbn [escaped delivered disconnected sweep_info];
    (split; [done|]); (split; [|split]);
    try (case_decide; simplify_eq; by rw ?app_nil_r).
  - intros c'. rw lookup_alter.
    repeat case_decide; subst; naive_solver.
  - intros c'. case_decide; naive_solver.
  - intros c'. case_decide; naive_solver.
Qed.

(** An iteration on a client whose send raises an uncaught exception. *)
Lemma sweep_step_uncaught st c :
  escaped st = None →
  outcome send active c = Some (Raises OtherError) →
  sweep_step send now active st c =
    mkSweep (sweep_info st) (delivered st) (disconnected st) (Some OtherError).
Proof. intros He Hc. by rw (sweep_step_outcome st c He) Hc. Qed.

(** A loop in which no send raises an uncaught exception runs to its end:
    it hands the payload to the clients whose send returns, stamps their
    metadata and no other, and notes those whose send raises
    [WebSocketDisconnect]. *)
Lemma sweep_fold_caught l st :
  escaped st = None →
  (∀ c, c ∈ l → outcome send active c ≠ Some (Raises OtherError)) →
  escaped (foldl (sweep_step send now active) st l) = None ∧
  delivered (foldl (sweep_step send now active) st l) =
    delivered st ++ filter (λ c, outcome send active c = Some Returns) l ∧
  disconnected (foldl (sweep_step send now active) st l) =
    disconnected st ++
    filter (λ c, outcome send active c = Some (Raises WebSocketDisconnect)) l ∧
  ∀ c, sweep_info (foldl (sweep_step send now active) st l) !! c =
       if decide (c ∈ l ∧ outcome send active c = Some Returns)
       then set_last_active (now c) <$> sweep_info st !! c
       else sweep_info st !! c.
Proof.
  revert st. induction l as [|c0 l IH]; intros st He Hl.
  - change (foldl (sweep_step send now active) st []) with st.
    rw !filter_nil !app_nil_r. do 3 (split; [done|]).
    intros c. case_decide as H; [|done].
    destruct H as [[]%not_elem_of_nil _].
  - destruct (sweep_step_caught st c0 He) as (He1 & Hd1 & Hx1 & Hi1).
    { apply Hl. by left. }
    destruct (IH (sweep_step send now active st c0) He1)
      as (He2 & Hd2 & Hx2 & Hi2).
    { intros c Hc. apply Hl. by right. }
    change (foldl (sweep_step send now active) st (c0 :: l))
      with (foldl (sweep_step send now active)
              (sweep_step send now active st c0) l).
    split; [done|]. split; [|split].
    + rw Hd2 Hd1 filter_cons -app_assoc.
      by destruct (decide (outcome send active c0 = Some Returns)).
    + rw Hx2 Hx1 filter_cons -app_assoc.
      by destruct (decide (outcome send active c0
                           = Some (Raises WebSocketDisconnect))).
    + intros c. rw Hi2 Hi1.
      pose proof (elem_of_cons l c c0) as Hcons.
      repeat case_decide; try done;
        try (by rw set_last_active_twice); exfalso; naive_solver.
Qed.

(** A loop in which some send raises an uncaught exception is left at the
    first such send: the clients before it are served as in a loop that
    runs to its end, the others are not reached. *)
Lemma sweep_fold_uncaught l st :
  escaped st = None →
  (∃ c, c ∈ l ∧ outcome send active c = Some (Raises OtherError)) →
  ∃ l1 c l2,
    l = l1 ++ c :: l2 ∧
    outcome send active c = Some (Raises OtherError) ∧
    escaped (foldl (sweep_step send now active) st l) = Some OtherError ∧
    delivered (foldl (sweep_step send now active) st l) =
      delivered st ++ filter (λ c, outcome send active c = Some Returns) l1.
Proof.
  revert st. induction l as [|c0 l IH]; intros st He (c & Hc & Hf).
  { by apply not_elem_of_nil in Hc. }
  change (foldl (sweep_step send now active) st (c0 :: l))
    with (foldl (sweep_step send now active)
            (sweep_step send now active st c0) l).
  destruct (decide (outcome send active c0 = Some (Raises OtherError)))
    as [Hf0|Hf0].
  - exists [], c0, l. rw (sweep_step_uncaught st c0 He Hf0).
    rw (sweep_fold_escaped l _ OtherError); [done|].
    simpl. by rw filter_nil app_nil_r.
  - destruct (sweep_step_caught st c0 He Hf0) as (He1 & Hd1 & _).
    apply elem_of_cons in Hc as [->|Hc]; [done|].
    destruct (IH (sweep_step send now active st c0) He1)
      as (l1 & c' & l2 & -> & Hf' & He2 & Hd2); [by eauto|].
    exists (c0 :: l1), c', l2. split; [done|]. split; [done|].
    split; [done|]. rw Hd2 Hd1 filter_cons -app_assoc.
    by destruct (decide (outcome send active c0 = Some Returns)).
Qed.

(** However the loop ends, it changes the metadata only in [last_active]
    stamps. *)
Lemma sweep_step_same_but_last_active st c :
  same_but_last_active (sweep_info (sweep_step send now active st c))
    (sweep_info st).
Proof.
  unfold sweep_step.
  destruct (escaped st); [done|].
  destruct (active !! c) as [w|]; [|done].
  destruct (send w) as [|[]]; simpl; try done.
  intros c'. rw lookup_alter. case_decide; [subst c'|done].
  by rw set_last_active_twice.
Qed.

Lemma sweep_fold_same_but_last_active l st :
  same_but_last_active
    (sweep_info (foldl (sweep_step send now active) st l)) (sweep_info st).
Proof.
  revert st. induction l as [|c l IH]; intros st; [done|].
  simpl. eapply same_but_last_active_trans; [apply IH|].
  apply sweep_step_same_but_last_active.
Qed.

Lemma sweep_fold_dom l st :
  dom (sweep_info (foldl (sweep_step send now active) st l))
  = dom (sweep_info st).
Proof.
  apply set_eq. intros c. rw !elem_of_dom.
  pose proof (sweep_fold_same_but_last_active l st c) as H.
  destruct (sweep_info (foldl (sweep_step send now active) st l) !! c),
    (sweep_info st !! c); simpl in H; try done; split; eauto.
Qed.

(** The loop of [broadcast] is the loop of the room broadcast run over the
    keys of the handle map. *)
Lemma broadcast_step_sweep_step items st :
  (∀ c w, (c, w) ∈ items → active !! c = Some w) →
  foldl (broadcast_step send now) st items
  = foldl (sweep_step send now active) st items.*1.
Proof.
  revert st. induction items as [|[c w] items IH]; intros st Hin; [done|].
  simpl. rw -IH.
  { intros c' w' H. apply Hin. by right. }
  f_equal. unfold sweep_step. rw (Hin c w); [by left|done].
Qed.
End sweep_loop.

(** ** The cleanup loop *)

Lemma foldl_disconnect_active l m c :
  active_connections (foldl disconnect m l) !! c =
  if decide (c ∈ l) then None else active_connections m !! c.
Proof.
  revert m. induction l as [|x l IH]; intros m.
  - case_decide as H; [by apply not_elem_of_nil in H|done].
  - change (foldl disconnect m (x :: l))
      with (foldl disconnect (disconnect m x) l).
    rw IH disconnect_active.
    case_decide as H1; case_decide as H2; try done.
    + exfalso. apply H2. by right.
    + apply elem_of_cons in H2 as [->|]; [|done]. by rw lookup_delete_eq.
    + rw lookup_delete_ne //. intros ->. apply H2. by left.
Qed.

Lemma foldl_disconnect_paired l m :
  paired m → paired (foldl disconnect m l).
Proof.
  revert m. induction l as [|x l IH]; intros m H; [done|].
  simpl. by apply IH, disconnect_paired.
Qed.

Lemma foldl_disconnect_pruned l m :
  pruned_indices m → pruned_indices (foldl disconnect m l).
Proof.
  revert m. induction l as [|x l IH]; intros m H; [done|].
  simpl. apply IH. by apply (step_pruned_indices m (Disconnect x)).
Qed.

Lemma foldl_disconnect_in_room l m c k :
  in_room (foldl disconnect m l) c k → in_room m c k.
Proof.
  revert m. induction l as [|x l IH]; intros m H; [done|].
  simpl in H. apply IH in H. by apply disconnect_in_room in H as [H _].
Qed.

Lemma foldl_disconnect_in_user l m c u :
  in_user (foldl disconnect m l) c u → in_user m c u.
Proof.
  revert m. induction l as [|x l IH]; intros m H; [done|].
  simpl in H. apply IH in H. by apply disconnect_in_user in H as [H _].
Qed.

(** ** Delivery and cleanup of a broadcast over a list of ids *)

(** The manager a broadcast leaves is the one it found, with some
    [last_active] stamps, after the disconnection of some clients. *)
Lemma cleanup_manager m st :
  ∃ l, manager (cleanup m st) =
       foldl disconnect
         (mkManager (active_connections m) (room_connections m)
            (user_connections m) (sweep_info st)) l.
Proof.
  unfold cleanup. destruct (escaped st).
  - by exists [].
  - by exists (disconnected st).
Qed.

Lemma broadcast_over (send : WebSocket → SendOutcome) (now : string → Z)
    (m : ConnectionManager) (s : gset string) (l : list string) :
  NoDup l →
  (∀ c, c ∈ l ↔ c ∈ s) →
  let b := cleanup m
             (foldl (sweep_step send now (active_connections m))
                (mkSweep (connection_info m) [] [] None) l) in
  NoDup (recipients b) ∧
  (∀ c, c ∈ recipients b →
        c ∈ s ∧ outcome send (active_connections m) c = Some Returns) ∧
  (raised b = None ↔
   ∀ c, c ∈ s →
        outcome send (active_connections m) c ≠ Some (Raises OtherError)) ∧
  (raised b = None →
   (∀ c, c ∈ recipients b ↔
         c ∈ s ∧ outcome send (active_connections m) c = Some Returns) ∧
   (∀ c, active_connections (manager b) !! c =
         if decide (c ∈ s ∧ outcome send (active_connections m) c
                            = Some (Raises WebSocketDisconnect))
         then None else active_connections m !! c)) ∧
  (raised b ≠ None →
   raised b = Some OtherError ∧
   active_connections (manager b) = active_connections m ∧
   room_connections (manager b) = room_connections m ∧
   user_connections (manager b) = user_connections m ∧
   same_but_last_active (connection_info (manager b)) (connection_info m)).
Proof.
  intros Hl Hs b. subst b.
  set (st0 := mkSweep (connection_info m) [] [] None).
  destruct (decide (Exists (λ c, outcome send (active_connections m) c
                                 = Some (Raises OtherError)) l)) as [Hex|Hno].
  - apply Exists_exists in Hex.
    destruct (sweep_fold_uncaught send now (active_connections m) l st0
                eq_refl Hex) as (l1 & c0 & l2 & Hl12 & Hf & He & Hd).
    unfold cleanup. rw He. simpl in *. rw Hd.
    assert (NoDup l1) as Hl1.
    { rw Hl12 in Hl. by apply NoDup_app in Hl as [? _]. }
    assert (c0 ∈ s) as Hc0.
    { apply Hs. rw Hl12. apply elem_of_app. right. by left. }
    split; [by apply NoDup_filter|]. split.
    { intros c [Hg Hc]%list_elem_of_filter. split; [|done].
      apply Hs. rw Hl12. apply elem_of_app. by left. }
    split; [split; [done|]; intros H; by apply H in Hf|].
    split; [done|]. intros _. do 4 (split; [done|]).
    apply (sweep_fold_same_but_last_active send now _ l st0).
  - assert (∀ c, c ∈ l → outcome send (active_connections m) c
                         ≠ Some (Raises OtherError)) as Hok.
    { intros c Hc Hf. apply Hno, Exists_exists. eauto. }
    destruct (sweep_fold_caught send now (active_connections m) l st0
                eq_refl Hok) as (He & Hd & Hx & _).
    unfold cleanup. rw He. simpl in *. rw Hd.
    split; [by apply NoDup_filter|]. split.
    { intros c [Hg Hc]%list_elem_of_filter. split; [by apply Hs|done]. }
    split; [split; [|done]; intros _ c Hc; by apply Hok, Hs|].
    split; [|done]. intros _. split.
    { intros c. rw list_elem_of_filter -Hs. naive_solver. }
    intros c. rw foldl_disconnect_active Hx. simpl.
    repeat case_decide; try done; exfalso.
    + apply list_elem_of_filter in H. rw Hs in H. naive_solver.
    + apply H. apply list_elem_of_filter. rw Hs. naive_solver.
Qed.

(** ** One failing send in a room broadcast *)





(** ** The three broadcasts, for any outcome of their sends *)

Lemma broadcast_none (send : WebSocket → SendOutcome) (m : ConnectionManager) :
  let b := mkBroadcast m [] None in
  NoDup (recipients b) ∧
  (∀ c, c ∈ recipients b →
        c ∈ (∅ : gset string) ∧
        outcome send (active_connections m) c = Some Returns) ∧
  (raised b = None ↔
   ∀ c, c ∈ (∅ : gset string) →
        outcome send (active_connections m) c ≠ Some (Raises OtherError)) ∧
  (raised b = None →
   (∀ c, c ∈ recipients b ↔
         c ∈ (∅ : gset string) ∧
         outcome send (active_connections m) c = Some Returns) ∧
   (∀ c, active_connections (manager b) !! c =
         if decide (c ∈ (∅ : gset string) ∧
                    outcome send (active_connections m) c
                    = Some (Raises WebSocketDisconnect))
         then None else active_connections m !! c)) ∧
  (raised b ≠ None →
   raised b = Some OtherError ∧
   active_connections (manager b) = active_connections m ∧
   room_connections (manager b) = room_connections m ∧
   user_connections (manager b) = user_connections m ∧
   same_but_last_active (connection_info (manager b)) (connection_info m)).
Proof.
  cbv zeta. cbn [recipients raised manager].
  split; [apply NoDup_nil_2|].
  split; [by intros c []%not_elem_of_nil|].
  split; [split; [by intros _ c []%not_elem_of_empty|done]|].
  split; [|done]. intros _. split.
  - intros c. split; [by intros []%not_elem_of_nil|].
    by intros [[]%not_elem_of_empty _].
  - intros c. case_decide as H; [|done].
    by destruct H as [[]%not_elem_of_empty _].
Qed.

(** X6. [broadcast_to_room], whatever each send does. Every recipient gets
    the payload once and is a member of the room with a handle whose send
    returns, so a member without a handle and a client outside the room get
    nothing, and a room without an entry has no recipient. The call returns
    exactly when no send to a member raises an exception other than
    [WebSocketDisconnect]; then the recipients are all such members, and
    the handles that are gone are exactly those of the members whose send
    raised [WebSocketDisconnect]. Otherwise that other exception leaves the
    call: the cleanup is not reached, so no handle is removed and no index
    changes, whichever sends raised [WebSocketDisconnect] before, and the
    metadata differs at most in [last_active]. *)
Theorem broadcast_to_room_delivery
    (send : WebSocket → SendOutcome) (now : string → Z)
    (m : ConnectionManager) (msg : string) (rid : Z) :
  let members := default ∅ (room_connections m !! rid) in
  let r := broadcast_to_room send now m msg rid in
  NoDup (recipients r) ∧
  (∀ c, c ∈ recipients r →
        c ∈ members ∧ outcome send (active_connections m) c = Some Returns) ∧
  (raised r = None ↔
   ∀ c, c ∈ members →
        outcome send (active_connections m) c ≠ Some (Raises OtherError)) ∧
  (raised r = None →
   (∀ c, c ∈ recipients r ↔
         c ∈ members ∧ outcome send (active_connections m) c = Some Returns) ∧
   (∀ c, active_connections (manager r) !! c =
         if decide (c ∈ members ∧
                    outcome send (active_connections m) c
                    = Some (Raises WebSocketDisconnect))
         then None else active_connections m !! c)) ∧
  (raised r ≠ None →
   raised r = Some OtherError ∧
   active_connections (manager r) = active_connections m ∧
   room_connections (manager r) = room_connections m ∧
   user_connections (manager r) = user_connections m ∧
   same_but_last_active (connection_info (manager r)) (connection_info m)).
Proof.
  unfold broadcast_to_room.
  destruct (room_connections m !! rid) as [s|].
  - apply (broadcast_over send now m s (elements s) (NoDup_elements s)).
    intros c. apply elem_of_elements.
  - apply broadcast_none.
Qed.

(** X7. [broadcast_to_user], whatever each send does: the same, for the
    connections of the user. Every recipient gets the payload once and is a
    connection of the user with a handle whose send returns. The call
    returns exactly when no send to one of them raises an exception other
    than [WebSocketDisconnect]; then the recipients are all such
    connections and exactly the handles whose send raised
    [WebSocketDisconnect] are gone. Otherwise the exception leaves the call
    and no handle is removed and no index changes. *)
Theorem broadcast_to_user_delivery
    (send : WebSocket → SendOutcome) (now : string → Z)
    (m : ConnectionManager) (msg : string) (uid : Z) :
  let members := default ∅ (user_connections m !! uid) in
  let r := broadcast_to_user send now m msg uid in
  NoDup (recipients r) ∧
  (∀ c, c ∈ recipients r →
        c ∈ members ∧ outcome send (active_connections m) c = Some Returns) ∧
  (raised r = None ↔
   ∀ c, c ∈ members →
        outcome send (active_connections m) c ≠ Some (Raises OtherError)) ∧
  (raised r = None →
   (∀ c, c ∈ recipients r ↔
         c ∈ members ∧ outcome send (active_connections m) c = Some Returns) ∧
   (∀ c, active_connections (manager r) !! c =
         if decide (c ∈ members ∧
                    outcome send (active_connections m) c
                    = Some (Raises WebSocketDisconnect))
         then None else active_connections m !! c)) ∧
  (raised r ≠ None →
   raised r = Some OtherError ∧
   active_connections (manager r) = active_connections m ∧
   room_connections (manager r) = room_connections m ∧
   user_connections (manager r) = user_connections m ∧
   same_but_last_active (connection_info (manager r)) (connection_info m)).
Proof.
  unfold broadcast_to_user.
  destruct (user_connections m !! uid) as [s|].
  - apply (broadcast_over send now m s (elements s) (NoDup_elements s)).
    intros c. apply elem_of_elements.
  - apply broadcast_none.
Qed.

Lemma broadcast_as_sweep send now m msg :
  broadcast send now m msg =
  cleanup m
    (foldl (sweep_step send now (active_connections m))
       (mkSweep (connection_info m) [] [] None)
       (map_to_list (active_connections m)).*1).
Proof.
  unfold broadcast.
  rw (broadcast_step_sweep_step send now (active_connections m)); [|done].
  intros c w H. by apply elem_of_map_to_list.
Qed.

Lemma elem_of_keys (active : gmap string WebSocket) c :
  c ∈ (map_to_list active).*1 ↔ c ∈ dom active.
Proof.
  rw list_elem_of_fmap elem_of_dom. split.
  - intros ([c' w] & -> & H). apply elem_of_map_to_list in H. eauto.
  - intros [w H]. exists (c, w). split; [done|].
    by apply elem_of_map_to_list.
Qed.

Lemma outcome_registered send (active : gmap string WebSocket) c o :
  outcome send active c = Some o → c ∈ dom active.
Proof.
  unfold outcome. intros H. apply elem_of_dom.
  by destruct (active !! c).
Qed.

(** X8. [broadcast], whatever each send does. Every recipient gets the
    payload once and is a registered client whose send returns. The call
    returns exactly when no send raises an exception other than
    [WebSocketDisconnect]; then the recipients are all the registered
    clients whose send returns, exactly the handles whose send raised
    [WebSocketDisconnect] are gone, and no handle is left whose send
    raises. Otherwise the exception leaves the call and no handle is
    removed and no index changes. *)
Theorem broadcast_delivery
    (send : WebSocket → SendOutcome) (now : string → Z)
    (m : ConnectionManager) (msg : string) :
  let r := broadcast send now m msg in
  NoDup (recipients r) ∧
  (∀ c, c ∈ recipients r →
        outcome send (active_connections m) c = Some Returns) ∧
  (raised r = None ↔
   ∀ c, outcome send (active_connections m) c ≠ Some (Raises OtherError)) ∧
  (raised r = None →
   (∀ c, c ∈ recipients r ↔
         outcome send (active_connections m) c = Some Returns) ∧
   (∀ c, active_connections (manager r) !! c =
         if decide (outcome send (active_connections m) c
                    = Some (Raises WebSocketDisconnect))
         then None else active_connections m !! c) ∧
   (∀ c e, outcome send (active_connections (manager r)) c
           ≠ Some (Raises e))) ∧
  (raised r ≠ None →
   raised r = Some OtherError ∧
   active_connections (manager r) = active_connections m ∧
   room_connections (manager r) = room_connections m ∧
   user_connections (manager r) = user_connections m ∧
   same_but_last_active (connection_info (manager r)) (connection_info m)).
Proof.
  intros r. subst r. rw broadcast_as_sweep.
  destruct (broadcast_over send now m (dom (active_connections m))
              (map_to_list (active_connections m)).*1
              (NoDup_fst_map_to_list _) (elem_of_keys _))
    as (Hn & Hsub & Hret & Hok & Hraise).
  split; [done|]. split; [intros c Hc; by apply Hsub|].
  assert ((∀ c, c ∈ dom (active_connections m) →
                outcome send (active_connections m) c
                ≠ Some (Raises OtherError)) ↔
          (∀ c, outcome send (active_connections m) c
                ≠ Some (Raises OtherError))) as Hall.
  { split; [|by auto]. intros H c Hc.
    by apply (H c (outcome_registered _ _ _ _ Hc)). }
  split; [by rw Hret|]. split; [|done].
  intros Hr. destruct (Hok Hr) as [Hrec Hact].
  assert (∀ c, active_connections
                 (manager
                    (cleanup m
                       (foldl (sweep_step send now (active_connections m))
                          (mkSweep (connection_info m) [] [] None)
                          (map_to_list (active_connections m)).*1))) !! c
               = if decide (outcome send (active_connections m) c
                            = Some (Raises WebSocketDisconnect))
                 then None else active_connections m !! c) as Hact'.
  { intros c. rw Hact. repeat case_decide; try done; exfalso.
    - naive_solver.
    - apply H. split; [by eapply outcome_registered|done]. }
  split; [|split; [done|]].
  - intros c. rw Hrec. split; [naive_solver|].
    intros H. split; [by eapply outcome_registered|done].
  - intros c e. unfold outcome at 1. rw Hact'.
    case_decide as Hd; [done|]. fold (outcome send (active_connections m) c).
    destruct e; [done|]. apply (proj1 Hall (proj1 Hret Hr)).
Qed.

Lemma filter_none (P : string → Prop) `{∀ x, Decision (P x)} (l : list string) :
  (∀ x, x ∈ l → ¬ P x) → filter P l = [].
Proof.
  intros Hl. destruct (filter P l) as [|x l'] eqn:E; [done|].
  assert (x ∈ filter P l) as Hx by (rw E; by left).
  apply list_elem_of_filter in Hx as [HP Hx]. by apply Hl in Hx.
Qed.

(** X9. A [broadcast_to_room] in which no send to a member raises returns,
    changes neither handles nor indices, and in the metadata sets
    [last_active] of each recipient to the time of its send and changes
    nothing else. *)
Theorem broadcast_to_room_all_delivered
    (send : WebSocket → SendOutcome) (now : string → Z)
    (m : ConnectionManager) (msg : string) (rid : Z) :
  (∀ c e, in_room m c rid →
          outcome send (active_connections m) c ≠ Some (Raises e)) →
  let r := broadcast_to_room send now m msg rid in
  raised r = None ∧
  active_connections (manager r) = active_connections m ∧
  room_connections (manager r) = room_connections m ∧
  user_connections (manager r) = user_connections m ∧
  (∀ c, connection_info (manager r) !! c =
        if decide (c ∈ recipients r)
        then set_last_active (now c) <$> connection_info m !! c
        else connection_info m !! c).
Proof.
  intros Hok r. subst r. unfold in_room in Hok. unfold broadcast_to_room.
  destruct (room_connections m !! rid) as [s|].
  - simpl in Hok.
    destruct (sweep_fold_caught send now (active_connections m) (elements s)
                (mkSweep (connection_info m) [] [] None) eq_refl)
      as (He & Hdel & Hdis & Hinfo).
    { intros c Hc. apply Hok. by apply elem_of_elements. }
    simpl in Hdel, Hdis, Hinfo. unfold cleanup, sweep.
    rw He Hdis filter_none.
    { intros x Hx. apply Hok. by apply elem_of_elements. }
    cbn [foldl manager recipients raised active_connections room_connections
         user_connections connection_info].
    do 4 (split; [done|]).
    intros c. rw Hinfo Hdel.
    repeat case_decide; try done; exfalso.
    + apply H0. apply list_elem_of_filter. naive_solver.
    + apply list_elem_of_filter in H0. naive_solver.
  - do 4 (split; [done|]). intros c.
    case_decide as H; [by apply not_elem_of_nil in H|done].
Qed.

Lemma broadcast_to_room_all_delivered_witness :
  let m := run [Connect (Handle 0) (Some "a") None (Some 1) "u" 0 0] in
  last_active <$>
    connection_info
      (manager (broadcast_to_room (λ _, Returns) (λ _, 9) m "hi" 1)) !! "a"
  = Some 9.
Proof.
  intros m.
  destruct (broadcast_to_room_all_delivered (λ _, Returns) (λ _, 9) m "hi" 1)
    as (_ & _ & _ & _ & H).
  - intros c e _. unfold outcome. by destruct (active_connections m !! c).
  - rw H. vm_compute. reflexivity.
Defined.

(** ** Personal messages *)

(** X10. [send_personal_message] hands the payload over exactly when the
    addressee has a handle whose send returns, and lets the exception of
    the send out exactly when it has one whose send raises,
    [WebSocketDisconnect] or another, leaving the manager as it was: unlike
    the broadcasts it never removes the dead connection. In every case
    handles and indices are unchanged, the metadata changes at most in
    [last_active], and the diagnostic snapshot is the same. *)
Theorem send_personal_message_effect
    (send : WebSocket → SendOutcome) (now : Z) (m : ConnectionManager)
    (msg c : string) :
  let r := send_personal_message send now m msg c in
  (r.2 = Delivered ↔ outcome send (active_connections m) c = Some Returns) ∧
  (∀ e, r.2 = Raised e ↔
        outcome send (active_connections m) c = Some (Raises e)) ∧
  (r.2 ≠ Delivered → r.1 = m) ∧
  active_connections r.1 = active_connections m ∧
  room_connections r.1 = room_connections m ∧
  user_connections r.1 = user_connections m ∧
  same_but_last_active (connection_info r.1) (connection_info m) ∧
  get_connections_info r.1 = get_connections_info m.
Proof.
  intros r. subst r. unfold send_personal_message, outcome.
  destruct (active_connections m !! c) as [w|]; simpl;
    [destruct (send w) as [|e0]|]; simpl;
    try by (repeat split; try done; try naive_solver).
  repeat split; try done; try naive_solver.
  - intros c'. rw lookup_alter. case_decide; [subst c'|done].
    by rw set_last_active_twice.
  - unfold get_connections_info; simpl. f_equal.
    by rw -!size_dom dom_alter_L.
Qed.

(** ** The endpoints when a client goes away *)

Lemma broadcast_to_room_recipients send now m msg rid c :
  c ∈ recipients (broadcast_to_room send now m msg rid) →
  in_room m c rid ∧ outcome send (active_connections m) c = Some Returns.
Proof.
  unfold broadcast_to_room, in_room.
  destruct (room_connections m !! rid) as [s|]; simpl.
  - destruct (broadcast_over send now m s (elements s) (NoDup_elements s))
      as (_ & Hd & _); [intros x; apply elem_of_elements|].
    apply Hd.
  - by intros []%not_elem_of_nil.
Qed.

(** X11. In the authenticated endpoint the room of the client is looked up
    after [disconnect] has deleted its metadata, so for a manager in which
    handles and metadata are paired the lookup finds nothing: the branch
    leaves the manager as [disconnect] left it, notifies no one and raises
    nothing. *)
Theorem auth_endpoint_disconnected_silent
    (send : WebSocket → SendOutcome) (now : string → Z)
    (m : ConnectionManager) (cid : string) (notice : Z → string) :
  paired m →
  auth_endpoint_disconnected send now m cid notice
  = mkBroadcast (disconnect m cid) [] None.
Proof.
  intros Hp. unfold auth_endpoint_disconnected.
  rw (disconnect_info _ _ Hp) lookup_delete_eq. done.
Qed.

Lemma auth_endpoint_disconnected_silent_witness :
  let m := run [Connect (Handle 0) (Some "a") (Some 2) None "u" 0 0;
                Connect (Handle 1) (Some "b") (Some 3) None "u" 0 0;
                JoinRoom "a" 4; JoinRoom "b" 4] in
  recipients
    (auth_endpoint_disconnected (λ _, Returns) (λ _, 9) m "a" (λ _, "bye"))
  = [].
Proof.
  intros m.
  rw (auth_endpoint_disconnected_silent (λ _, Returns) (λ _, 9) m "a"
        (λ _, "bye")); [|done].
  apply set_eq. intros c. vm_compute. tauto.
Defined.

(** X12. In the room endpoint the notice goes out after [disconnect]: the
    client that went away is never among the recipients, even when it is
    still listed in the room, and every recipient is a registered member of
    the room. *)
Theorem room_endpoint_disconnected_recipients
    (send : WebSocket → SendOutcome) (now : string → Z)
    (m : ConnectionManager) (cid : string) (rid : Z) (notice : string) :
  let r := room_endpoint_disconnected send now m cid rid notice in
  (cid ∉ recipients r) ∧
  ∀ c, c ∈ recipients r →
       c ≠ cid ∧ in_room m c rid ∧ c ∈ dom (active_connections m).
Proof.
  intros r. subst r. unfold room_endpoint_disconnected.
  pose proof (broadcast_to_room_recipients send now (disconnect m cid)
                notice rid) as Hd.
  assert (∀ c, c ∈ recipients (broadcast_to_room send now (disconnect m cid)
                                 notice rid) →
               c ≠ cid ∧ in_room m c rid ∧ c ∈ dom (active_connections m))
    as H.
  { intros c [Hin Hout]%Hd. unfold outcome in Hout.
    rw disconnect_active in Hout.
    destruct (decide (c = cid)) as [->|Hne].
    { by rw lookup_delete_eq in Hout. }
    rw lookup_delete_ne // in Hout. split; [done|]. split.
    - by apply (disconnect_in_room m cid c rid).
    - apply elem_of_dom. by destruct (active_connections m !! c). }
  split; [|done]. intros Hc. by apply H in Hc as [? _].
Qed.

(** ** Invariants of all the methods together *)

Lemma reach_snoc acts a : reach (acts ++ [a]) = exec (reach acts) a.
Proof. unfold reach. by rw foldl_snoc. Qed.

Lemma reach_ind (P : ConnectionManager → Prop) :
  P init → (∀ m a, P m → P (exec m a)) → ∀ acts, P (reach acts).
Proof.
  intros H0 Hexec acts. induction acts as [|a acts IH] using rev_ind.
  - exact H0.
  - rw reach_snoc. by apply Hexec.
Qed.

Lemma cleanup_sweep_shape send now m l :
  ∃ info l',
    dom info = dom (connection_info m) ∧
    same_but_last_active info (connection_info m) ∧
    manager
      (cleanup m
         (foldl (sweep_step send now (active_connections m))
            (mkSweep (connection_info m) [] [] None) l)) =
      foldl disconnect
        (mkManager (active_connections m) (room_connections m)
           (user_connections m) info) l'.
Proof.
  set (st0 := mkSweep (connection_info m) [] [] None).
  destruct (cleanup_manager m
              (foldl (sweep_step send now (active_connections m)) st0 l))
    as [l' H].
  eexists _, l'. split; [|split; [|exact H]].
  - apply (sweep_fold_dom send now _ l st0).
  - apply (sweep_fold_same_but_last_active send now _ l st0).
Qed.

(** Every sender leaves a manager obtained by stamping some metadata and
    then disconnecting some clients. *)
Lemma exec_sender_shape m a :
  (∃ o, a = Lifecycle o) ∨
  ∃ info l,
    dom info = dom (connection_info m) ∧
    same_but_last_active info (connection_info m) ∧
    exec m a =
      foldl disconnect
        (mkManager (active_connections m) (room_connections m)
           (user_connections m) info) l.
Proof.
  destruct a as [o|send now msg c|send now msg|send now msg r|send now msg u].
  - left. eauto.
  - right. simpl. unfold send_personal_message.
    destruct (active_connections m !! c) as [w|]; [destruct (send w)|].
    + exists (alter (set_last_active now) c (connection_info m)), [].
      split; [by rw dom_alter_L|]. split; [|done].
      intros c'. rw lookup_alter. case_decide; [subst c'|done].
      by rw set_last_active_twice.
    + exists (connection_info m), []. by destruct m.
    + exists (connection_info m), []. by destruct m.
  - right. unfold exec. rw broadcast_as_sweep. apply cleanup_sweep_shape.
  - right. unfold exec, broadcast_to_room.
    destruct (room_connections m !! r) as [s|].
    + apply cleanup_sweep_shape.
    + exists (connection_info m), []. by destruct m.
  - right. unfold exec, broadcast_to_user.
    destruct (user_connections m !! u) as [s|].
    + apply cleanup_sweep_shape.
    + exists (connection_info m), []. by destruct m.
Qed.

Lemma exec_paired m a : paired m → paired (exec m a).
Proof.
  intros Hp. destruct (exec_sender_shape m a) as [[o ->]|(i & l & Hd & _ & ->)].
  - by apply step_paired.
  - apply foldl_disconnect_paired. unfold paired in *; simpl. by rw Hd.
Qed.

Lemma exec_pruned_indices m a : pruned_indices m → pruned_indices (exec m a).
Proof.
  intros Hp. destruct (exec_sender_shape m a) as [[o ->]|(i & l & _ & _ & ->)].
  - by apply step_pruned_indices.
  - by apply foldl_disconnect_pruned.
Qed.

(** X13. Whatever sequence of manager calls is made on a fresh manager,
    lifecycle calls, personal messages and the three broadcasts with any
    outcome of their sends, a handle exists for an id exactly when its
    metadata record does. *)
Theorem reach_paired (acts : list Action) :
  dom (active_connections (reach acts)) = dom (connection_info (reach acts)).
Proof.
  apply (reach_ind paired); [|apply exec_paired].
  unfold paired; simpl. by rw !dom_empty_L.
Qed.

(** X14. After any such sequence no room and no user is bound to the empty
    set, and the diagnostic snapshot lists no room with a count of 0. *)
Theorem reach_no_empty_entry (acts : list Action) :
  (∀ k s, room_connections (reach acts) !! k = Some s → s ≠ ∅) ∧
  (∀ u s, user_connections (reach acts) !! u = Some s → s ≠ ∅) ∧
  (∀ k n, schemas.connections_by_room (get_connections_info (reach acts)) !! k
          = Some n → (0 < n)%nat).
Proof.
  assert (pruned_indices (reach acts)) as [Hr Hu].
  { apply (reach_ind pruned_indices); [|apply exec_pruned_indices].
    split; intros k s; simpl; by rw lookup_empty. }
  split; [done|]. split; [done|].
  intros k n. simpl. rw lookup_fmap.
  destruct (room_connections (reach acts) !! k) as [s|] eqn:E; [|done].
  simpl. intros [= <-]. apply Hr in E.
  destruct (decide (size s = 0%nat)) as [H0|H0]; [|lia].
  by apply size_empty_iff, leibniz_equiv in H0.
Qed.

(** ** One room per connection *)

Lemma tracked_stamped m info :
  tracked m →
  dom info = dom (connection_info m) →
  same_but_last_active info (connection_info m) →
  tracked (mkManager (active_connections m) (room_connections m)
             (user_connections m) info).
Proof.
  intros (Hp & Hr & Hu) Hd Hs. split; [|split].
  - unfold paired in *; simpl. by rw Hd.
  - intros c k Hin. destruct (Hr c k Hin) as (? & ? & Hrec).
    do 2 (split; [done|]). unfold recorded_room in *; simpl.
    by destruct (same_but_last_active_fields _ _ c Hs) as [-> _].
  - intros c u Hin. destruct (Hu c u Hin) as (? & ? & Hrec).
    do 2 (split; [done|]). unfold recorded_user in *; simpl.
    by destruct (same_but_last_active_fields _ _ c Hs) as [_ ->].
Qed.

Lemma disconnect_tracked m x : tracked m → tracked (disconnect m x).
Proof.
  intros (Hp & Hr & Hu). split; [by apply disconnect_paired|]. split.
  - intros c k [Hin Hnot]%disconnect_in_room.
    destruct (Hr c k Hin) as (Hk & Hc & Hrec).
    assert (c ≠ x) as Hne by (intros ->; by apply Hnot).
    split; [done|]. split.
    + rw disconnect_active dom_delete_L. set_solver.
    + unfold recorded_room in *. by rw disconnect_info_other.
  - intros c u [Hin Hnot]%disconnect_in_user.
    destruct (Hu c u Hin) as (Hk & Hc & Hrec).
    assert (c ≠ x) as Hne by (intros ->; by apply Hnot).
    split; [done|]. split.
    + rw disconnect_active dom_delete_L. set_solver.
    + unfold recorded_user in *. by rw disconnect_info_other.
Qed.

Lemma foldl_disconnect_tracked l m : tracked m → tracked (foldl disconnect m l).
Proof.
  revert m. induction l as [|x l IH]; intros m H; [done|].
  simpl. by apply IH, disconnect_tracked.
Qed.

Lemma connect_in_room m ws c uid rid uuid t1 t2 c' k :
  let r := connect m ws c uid rid uuid t1 t2 in
  in_room r.1 c' k ↔ (c' = r.2 ∧ rid = Some k ∧ k ≠ 0) ∨ in_room m c' k.
Proof.
  unfold connect, in_room; simpl.
  destruct rid as [z|]; simpl; [destruct (Z.eqb_spec z 0)|]; simpl;
    rw ?index_add_member; naive_solver.
Qed.

Lemma connect_in_user m ws c uid rid uuid t1 t2 c' u :
  let r := connect m ws c uid rid uuid t1 t2 in
  in_user r.1 c' u ↔ (c' = r.2 ∧ uid = Some u ∧ u ≠ 0) ∨ in_user m c' u.
Proof.
  unfold connect, in_user; simpl.
  destruct uid as [z|]; simpl; [destruct (Z.eqb_spec z 0)|]; simpl;
    rw ?index_add_member; naive_solver.
Qed.

Lemma connect_tracked m ws c uid rid uuid t1 t2 :
  tracked m →
  (connect m ws c uid rid uuid t1 t2).2 ∉ dom (active_connections m) →
  tracked (connect m ws c uid rid uuid t1 t2).1.
Proof.
  intros (Hp & Hr & Hu) Hfresh.
  split; [by apply connect_paired|]. split.
  - intros c' k [(-> & -> & Hk)|Hin]%connect_in_room.
    + split; [done|]. unfold recorded_room, connect; simpl.
      rw dom_insert_L lookup_insert_eq. split; [set_solver|done].
    + destruct (Hr c' k Hin) as (Hk & Hc & Hrec).
      assert (c' ≠ (connect m ws c uid rid uuid t1 t2).2) as Hne
        by (intros ->; done).
      split; [done|]. unfold recorded_room, connect in *; simpl in *.
      rw dom_insert_L lookup_insert_ne //. split; [set_solver|done].
  - intros c' u [(-> & -> & Hk)|Hin]%connect_in_user.
    + split; [done|]. unfold recorded_user, connect; simpl.
      rw dom_insert_L lookup_insert_eq. split; [set_solver|done].
    + destruct (Hu c' u Hin) as (Hk & Hc & Hrec).
      assert (c' ≠ (connect m ws c uid rid uuid t1 t2).2) as Hne
        by (intros ->; done).
      split; [done|]. unfold recorded_user, connect in *; simpl in *.
      rw dom_insert_L lookup_insert_ne //. split; [set_solver|done].
Qed.

Lemma alter_set_room_user (info : gmap string ConnInfo) r c c' :
  alter (set_room r) c info !! c' ≫= user_id = info !! c' ≫= user_id.
Proof.
  rw lookup_alter. case_decide; [subst c'|done].
  by destruct (info !! c).
Qed.

Lemma join_room_tracked m c r :
  tracked m → r ≠ 0 → (∀ k, in_room m c k → k = r) →
  tracked (join_room m c r).1.
Proof.
  intros (Hp & Hr & Hu) Hr0 Hone.
  split; [by apply join_room_paired|].
  unfold join_room.
  destruct (active_connections m !! c) as [w|] eqn:Hw; [|done]. simpl.
  assert (c ∈ dom (active_connections m)) as Hc by (apply elem_of_dom; eauto).
  pose proof Hc as Hi. rw Hp in Hi. apply elem_of_dom in Hi as [i Hi].
  assert (alter (set_room (Some r)) c (connection_info m) !! c ≫= room_id
          = Some r) as Hnew by by rw lookup_alter_eq Hi.
  split.
  - intros c' k. unfold in_room, recorded_room; simpl.
    intros [[-> ->]|Hin]%index_add_member; [done|].
    destruct (decide (c' = c)) as [->|Hne].
    + by rw (Hone k Hin).
    + destruct (Hr c' k Hin) as (? & ? & Hrec).
      unfold recorded_room in Hrec. by rw lookup_alter_ne.
  - intros c' u Hin. destruct (Hu c' u Hin) as (? & ? & Hrec).
    do 2 (split; [done|]). unfold recorded_user in *; simpl.
    by rw alter_set_room_user.
Qed.

Lemma leave_room_tracked m c r : tracked m → tracked (leave_room m c r).1.
Proof.
  intros (Hp & Hr & Hu).
  split; [by apply leave_room_paired|].
  destruct (decide (c ∈ default ∅ (room_connections m !! r))) as [Hc|Hc];
    fold (in_room m c r) in Hc; last first.
  { assert (leave_room m c r = (m, false)) as ->; [|done].
    unfold leave_room, in_room in *.
    destruct (room_connections m !! r) as [s|]; [|done].
    simpl in Hc. by rw (bool_decide_eq_false_2 _ Hc). }
  rw (leave_room_member _ _ _ Hc). simpl. split.
  - intros c' k. unfold in_room, recorded_room; simpl.
    intros [Hin Hnot]%index_discard_member.
    destruct (Hr c' k Hin) as (? & ? & Hrec).
    do 2 (split; [done|]).
    destruct (decide (c' = c)) as [->|Hne]; [|by rw lookup_alter_ne].
    destruct (Hr c r Hc) as (_ & _ & Hrec').
    exfalso. apply Hnot. split; [done|]. congruence.
  - intros c' u Hin. destruct (Hu c' u Hin) as (? & ? & Hrec).
    do 2 (split; [done|]). unfold recorded_user in *; simpl.
    by rw alter_set_room_user.
Qed.

Lemma exec_tracked m a : tracked m → disciplined m a → tracked (exec m a).
Proof.
  intros Ht Hd.
  destruct (exec_sender_shape m a) as [[o ->]|(i & l & Hdom & Hs & ->)].
  - destruct o as [ws c uid rid uuid t1 t2|c|c r|c r]; simpl in *.
    + by apply connect_tracked.
    + by apply disconnect_tracked.
    + destruct Hd. by apply join_room_tracked.
    + by apply leave_room_tracked.
  - by apply foldl_disconnect_tracked, tracked_stamped.
Qed.

Lemma tracked_from acts m :
  tracked m → disciplined_from m acts → tracked (foldl exec m acts).
Proof.
  revert m. induction acts as [|a acts IH]; intros m Ht Hd; [done|].
  destruct Hd as [Ha Hd]. simpl. apply IH; [by apply exec_tracked|done].
Qed.

Lemma tracked_init : tracked init.
Proof.
  split; [|split].
  - unfold paired; simpl. by rw !dom_empty_L.
  - intros c k. unfold in_room; simpl. rw lookup_empty.
    intros []%not_elem_of_empty.
  - intros c u. unfold in_user; simpl. rw lookup_empty.
    intros []%not_elem_of_empty.
Qed.

(** X15. As long as every [connect] registers an id that is not registered
    yet and every [join_room] is made with a room other than 0 by a client
    that is in no other room, then whatever else is called, broadcasts with
    failing sends included, every member of a room or user entry has a
    handle, the metadata of a member of a room records that room, and no
    client is in two rooms. *)
Theorem disciplined_members_registered (acts : list Action) :
  disciplined_from init acts →
  members_registered (reach acts) ∧
  (∀ c k, in_room (reach acts) c k → recorded_room (reach acts) c = Some k) ∧
  (∀ c k k', in_room (reach acts) c k → in_room (reach acts) c k' → k = k').
Proof.
  intros Hd. destruct (tracked_from acts init tracked_init Hd) as (_ & Hr & Hu).
  fold (reach acts) in Hr, Hu. split; [split|split].
  - intros k s c E Hc. apply (Hr c k). unfold in_room. by rw E.
  - intros u s c E Hc. apply (Hu c u). unfold in_user. by rw E.
  - intros c k Hin. by apply Hr.
  - intros c k k' H1 H2.
    destruct (Hr c k H1) as (_ & _ & E1), (Hr c k' H2) as (_ & _ & E2).
    congruence.
Qed.

Lemma disciplined_members_registered_witness :
  members_registered
    (reach [ Lifecycle (Connect (Handle 0) (Some "a") (Some 2) None "u" 0 0);
             Lifecycle (JoinRoom "a" 4);
             BroadcastRoom (λ _, Raises WebSocketDisconnect) (λ _, 1)
               "hi" 4 ]).
Proof.
  apply disciplined_members_registered. simpl.
  split; [|split; [|done]].
  - rw dom_empty_L. apply not_elem_of_empty.
  - split; [done|]. intros k. unfold in_room; simpl. rw lookup_empty.
    intros []%not_elem_of_empty.
Defined.

Lemma reach_pruned acts : pruned_indices (reach acts).
Proof.
  apply (reach_ind pruned_indices); [|apply exec_pruned_indices].
  split; intros k s; simpl; by rw lookup_empty.
Qed.

(** X16. Under the same discipline every per-room count of the diagnostic
    snapshot is at least 1 and at most [active_connections]. *)
Theorem disciplined_snapshot_bounds (acts : list Action) :
  disciplined_from init acts →
  ∀ k n,
    schemas.connections_by_room (get_connections_info (reach acts)) !! k
      = Some n →
    (1 ≤ n ≤ schemas.active_connections (get_connections_info (reach acts)))%nat.
Proof.
  intros Hd k n. simpl. rw lookup_fmap.
  destruct (room_connections (reach acts) !! k) as [s|] eqn:E; [|done].
  simpl. intros [= <-].
  destruct (tracked_from acts init tracked_init Hd) as (_ & Hr & _).
  fold (reach acts) in Hr.
  destruct (reach_pruned acts) as [Hne _]. split.
  - apply Hne in E.
    destruct (decide (size s = 0%nat)) as [H0|H0]; [|lia].
    by apply size_empty_iff, leibniz_equiv in H0.
  - rw -size_dom. apply subseteq_size. intros c Hc.
    apply (Hr c k). unfold in_room. by rw E.
Qed.

Lemma disciplined_snapshot_bounds_witness :
  let acts := [ Lifecycle (Connect (Handle 0) None None (Some 4) "u1" 0 0);
                Lifecycle (Connect (Handle 1) None None (Some 4) "u2" 0 0) ] in
  (1 ≤ 2 ≤ schemas.active_connections (get_connections_info (reach acts)))%nat.
Proof.
  intros acts. apply (disciplined_snapshot_bounds acts) with (k := 4).
  - simpl. split; [|split; [|done]].
    + rw dom_empty_L. apply not_elem_of_empty.
    + rw dom_insert_L dom_empty_L. set_solver.
  - vm_compute. reflexivity.
Defined.

(** ** The ids Python takes for false *)

Lemma disconnect_user_zero m c :
  user_connections (disconnect m c) !! 0 = user_connections m !! 0.
Proof.
  unfold disconnect. destruct (active_connections m !! c); [|done]. simpl.
  destruct (connection_info m !! c ≫= user_id) as [z|]; simpl; [|done].
  destruct (Z.eqb_spec z 0); simpl; [done|].
  rw index_discard_lookup. by case_decide.
Qed.

Lemma foldl_disconnect_user_zero l m :
  user_connections (foldl disconnect m l) !! 0 = user_connections m !! 0.
Proof.
  revert m. induction l as [|x l IH]; intros m; [done|].
  simpl. by rw IH disconnect_user_zero.
Qed.

Lemma exec_user_zero m a :
  user_connections (exec m a) !! 0 = user_connections m !! 0.
Proof.
  destruct (exec_sender_shape m a) as [[o ->]|(i & l & _ & _ & ->)].
  - destruct o as [ws c uid rid uuid t1 t2|c|c r|c r]; simpl.
    + destruct uid as [z|]; simpl; [|done].
      destruct (Z.eqb_spec z 0); simpl; [done|].
      rw index_add_lookup. by case_decide.
    + apply disconnect_user_zero.
    + unfold join_room. by destruct (active_connections m !! c).
    + unfold leave_room. destruct (room_connections m !! r); [|done].
      by case_bool_decide.
  - by rw foldl_disconnect_user_zero.
Qed.

(** X17. A user id of 0 counts as no user id: after any sequence of
    manager calls no entry exists for user 0, whatever [user_id] the
    connections were registered with, and a [broadcast_to_user] to user 0
    reaches no one, raises nothing and changes nothing. *)
Theorem user_zero_never_indexed (acts : list Action) :
  user_connections (reach acts) !! 0 = None ∧
  ∀ send now msg,
    broadcast_to_user send now (reach acts) msg 0
    = mkBroadcast (reach acts) [] None.
Proof.
  assert (user_connections (reach acts) !! 0 = None) as H.
  { apply (reach_ind (λ m, user_connections m !! 0 = None)); [done|].
    intros m a Hm. by rw exec_user_zero. }
  split; [done|]. intros send now msg. unfold broadcast_to_user. by rw H.
Qed.

(** ** Members without a handle *)

Lemma disconnect_keeps_unregistered m x c k :
  c ∉ dom (active_connections m) → in_room m c k →
  in_room (disconnect m x) c k.
Proof.
  intros Hc Hin. apply disconnect_in_room. split; [done|].
  intros (-> & Hx & _). by apply Hc.
Qed.

Lemma foldl_disconnect_keeps_unregistered l m c k :
  c ∉ dom (active_connections m) → in_room m c k →
  in_room (foldl disconnect m l) c k.
Proof.
  revert m. induction l as [|x l IH]; intros m Hc Hin; [done|].
  simpl. apply IH; [|by apply disconnect_keeps_unregistered].
  rw disconnect_active dom_delete_L. set_solver.
Qed.

(** X18. A member of a room that has no handle stays a member through
    every call of the manager except [leave_room] for that client and that
    room: no [disconnect], no [connect], no [join_room] and no sender, with
    whatever outcome of its sends, takes it out. *)
Theorem stale_member_persists
    (m : ConnectionManager) (a : Action) (c : string) (k : Z) :
  c ∉ dom (active_connections m) →
  in_room m c k →
  a ≠ Lifecycle (LeaveRoom c k) →
  in_room (exec m a) c k.
Proof.
  intros Hc Hin Ha.
  destruct (exec_sender_shape m a) as [[o ->]|(i & l & _ & _ & ->)].
  - destruct o as [ws c' uid rid uuid t1 t2|c'|c' r|c' r]; simpl.
    + apply connect_in_room. by right.
    + by apply disconnect_keeps_unregistered.
    + by apply join_room_stays_in_room.
    + destruct (decide (c' ∈ default ∅ (room_connections m !! r)))
        as [Hm|Hm].
      * rw (leave_room_member m c' r Hm). unfold in_room; simpl.
        apply index_discard_member. split; [done|].
        intros [-> ->]. by apply Ha.
      * unfold leave_room.
        destruct (room_connections m !! r) as [s|]; [|done].
        simpl in Hm. by rw (bool_decide_eq_false_2 _ Hm).
  - by apply foldl_disconnect_keeps_unregistered.
Qed.

Lemma stale_member_persists_witness :
  in_room
    (exec (run stale_room_run)
       (BroadcastRoom (λ _, Raises OtherError) (λ _, 1) "hi" 5))
    "a" 5.
Proof.
  apply stale_member_persists.
  - apply not_elem_of_dom. vm_compute. reflexivity.
  - unfold in_room. vm_compute. reflexivity.
  - discriminate.
Defined.

(** ** Joining twice *)

(** X19. [join_room] is idempotent: joining the same room a second time
    returns what the first call returned and leaves the manager as the
    first call left it. *)
Theorem join_room_idempotent (m : ConnectionManager) (c : string) (r : Z) :
  join_room (join_room m c r).1 c r = join_room m c r.
Proof.
  unfold join_room at 2 3.
  destruct (active_connections m !! c) as [w|] eqn:Hw; simpl.
  - unfold join_room; simpl. rw Hw. f_equal. f_equal.
    + apply map_eq. intros k.
      pose proof (index_add_lookup (index_add r c (room_connections m)) r c k)
        as E1.
      pose proof (index_add_lookup (room_connections m) r c k) as E2.
      rw E1. destruct (decide (r = k)) as [->|Hne]; [|done].
      rw E2. destruct (decide (k = k)); [|done].
      simpl. f_equal. set_solver.
    + apply map_eq. intros c'. destruct (decide (c' = c)) as [->|Hne].
      * rw !lookup_alter_eq. by destruct (connection_info m !! c).
      * by rw !lookup_alter_ne.
  - unfold join_room. by rw Hw.
Qed.
